(** * unchained-bitcoin: extended public keys and multisig signing

    A shallow embedding of [keys.js] and of the transaction module
    ([unsignedMultisigTransaction], [signedMultisigTransaction] and their
    helpers), followed by the properties proved about them.

    JavaScript strings are modelled as [string] (a sequence of code units
    below 256), Node [Buffer]s as [list byte], numbers that index or count
    as [nat], and a thrown [Error] as the [Err] case of a result type that
    carries the message. *)

From Stdlib Require Import ZArith NArith Strings.Byte Strings.Ascii Lia.
From stdpp Require Import base option list strings gmap pretty.

(** ** Node buffers and the 'hex' encoding *)

Module Hex.

Abbreviation Buffer := (list byte).

(** The value of one hexadecimal digit; Node accepts both cases. *)
Definition hex_value (c : ascii) : option N :=
  let n := N_of_ascii c in
  if (48 <=? n)%N && (n <=? 57)%N then Some (n - 48)%N
  else if (97 <=? n)%N && (n <=? 102)%N then Some (n - 87)%N
  else if (65 <=? n)%N && (n <=? 70)%N then Some (n - 55)%N
  else None.

(** Storing a number into a buffer keeps its low eight bits. *)
Definition byte_of_N (n : N) : byte :=
  default x00 (Byte.of_N (n mod 256)).

(** [Buffer.from(s, 'hex')]: two digits per byte; decoding stops at the
    first pair that is not hexadecimal, and a trailing single character
    is dropped. *)
Fixpoint from_hex (s : string) : Buffer :=
  match s with
  | String a (String b rest) =>
      match hex_value a, hex_value b with
      | Some h, Some l => byte_of_N (16 * h + l) :: from_hex rest
      | _, _ => []
      end
  | _ => []
  end.

Definition hex_digit (n : N) : ascii :=
  if (n <? 10)%N then ascii_of_N (48 + n) else ascii_of_N (87 + n).

(** [buf.toString('hex')]: two lower-case digits per byte. *)
Fixpoint to_hex (b : Buffer) : string :=
  match b with
  | [] => ""
  | x :: rest =>
      String (hex_digit (Byte.to_N x / 16))
        (String (hex_digit (Byte.to_N x mod 16)) (to_hex rest))
  end.

(** [buf[i]] as a number operand: an index past the end reads
    [undefined], which a bitwise operator turns into 0. *)
Definition index_int (b : Buffer) (i : nat) : N :=
  match b !! i with
  | Some x => Byte.to_N x
  | None => 0%N
  end.

(** [buf.slice(from, to)] for non-negative bounds. *)
Definition slice (from to : nat) (b : Buffer) : Buffer :=
  take (to - from) (drop from b).

End Hex.

(** ** SHA-256, the hash behind the Base58Check checksum *)

Module Sha256.
Local Open Scope N_scope.

Definition word (n : N) : N := n mod 2 ^ 32.

Definition rotr (k x : N) : N :=
  N.lor (N.shiftr x k) (word (N.shiftl x (32 - k))).

Definition Ch (x y z : N) : N :=
  N.lxor (N.land x y) (N.land (N.lxor x 4294967295) z).

Definition Maj (x y z : N) : N :=
  N.lxor (N.lxor (N.land x y) (N.land x z)) (N.land y z).

Definition bsig0 (x : N) : N := N.lxor (N.lxor (rotr 2 x) (rotr 13 x)) (rotr 22 x).
Definition bsig1 (x : N) : N := N.lxor (N.lxor (rotr 6 x) (rotr 11 x)) (rotr 25 x).
Definition ssig0 (x : N) : N := N.lxor (N.lxor (rotr 7 x) (rotr 18 x)) (N.shiftr x 3).
Definition ssig1 (x : N) : N := N.lxor (N.lxor (rotr 17 x) (rotr 19 x)) (N.shiftr x 10).

(** The first [count] primes, by trial division. *)
Definition is_prime (n : nat) : bool :=
  forallb (λ d, negb (n `mod` d =? 0)%nat) (seq 2 (n - 2)).

Definition primes (count : nat) : list N :=
  N.of_nat <$> take count (filter (λ n, is_prime n = true) (seq 2 400)).

(** Integer cube root, one bit at a time from bit [bits - 1] down. *)
Fixpoint cube_root (bits : nat) (n r : N) : N :=
  match bits with
  | O => r
  | S b =>
      let c := r + 2 ^ N.of_nat b in
      if c * c * c <=? n then cube_root b n c else cube_root b n r
  end.

(** The round constants: the first 32 bits of the fractional parts of the
    cube roots of the first 64 primes. *)
Definition K : list N :=
  Eval vm_compute in (λ p, word (cube_root 36 (p * 2 ^ 96) 0)) <$> primes 64.

Record state := State { sa : N; sb : N; sc : N; sd : N; se : N; sf : N; sg : N; sh : N }.

(** The initial hash value: the first 32 bits of the fractional parts of
    the square roots of the first 8 primes. *)
Definition H0 : state :=
  Eval vm_compute in
    let ps := primes 8 in
    let h (i : nat) := word (N.sqrt (default 0 (ps !! i) * 2 ^ 64)) in
    State (h 0%nat) (h 1%nat) (h 2%nat) (h 3%nat) (h 4%nat) (h 5%nat) (h 6%nat) (h 7%nat).

(** Big-endian value of a run of bytes. *)
Definition be_value (bs : list byte) : N :=
  fold_left (λ acc b, acc * 256 + Byte.to_N b) bs 0.

(** The [k] low bytes of [n], most significant first. *)
Fixpoint be_bytes (k : nat) (n : N) : list byte :=
  match k with
  | O => []
  | S k' => be_bytes k' (n / 256) ++ [Hex.byte_of_N n]
  end.

Definition pad (msg : list byte) : list byte :=
  let len := length msg in
  let zeros := ((55 + 64 - len `mod` 64) `mod` 64)%nat in
  msg ++ [x80] ++ replicate zeros x00 ++ be_bytes 8 (8 * N.of_nat len).

Fixpoint chunks (fuel size : nat) (bs : list byte) : list (list byte) :=
  match fuel with
  | O => []
  | S fuel' =>
      match bs with
      | [] => []
      | _ => take size bs :: chunks fuel' size (drop size bs)
      end
  end.

(** Message schedule: sixteen words of the block, then forty-eight derived. *)
Fixpoint extend (n : nat) (w : list N) : list N :=
  match n with
  | O => w
  | S n' =>
      let t := length w in
      let at_ i := default 0 (w !! (t - i)%nat) in
      extend n' (w ++ [word (ssig1 (at_ 2%nat) + at_ 7%nat + ssig0 (at_ 15%nat) + at_ 16%nat)])
  end.

Definition schedule (block : list byte) : list N :=
  extend 48 (be_value <$> chunks 16 4 block).

Definition round (s : state) (kw : N * N) : state :=
  let t1 := word (sh s + bsig1 (se s) + Ch (se s) (sf s) (sg s) + kw.1 + kw.2) in
  let t2 := word (bsig0 (sa s) + Maj (sa s) (sb s) (sc s)) in
  State (word (t1 + t2)) (sa s) (sb s) (sc s) (word (sd s + t1)) (se s) (sf s) (sg s).

Definition compress (s : state) (block : list byte) : state :=
  let r := fold_left round (zip K (schedule block)) s in
  State (word (sa s + sa r)) (word (sb s + sb r)) (word (sc s + sc r)) (word (sd s + sd r))
        (word (se s + se r)) (word (sf s + sf r)) (word (sg s + sg r)) (word (sh s + sh r)).

Definition digest (s : state) : list byte :=
  be_bytes 4 (sa s) ++ be_bytes 4 (sb s) ++ be_bytes 4 (sc s) ++ be_bytes 4 (sd s) ++
  be_bytes 4 (se s) ++ be_bytes 4 (sf s) ++ be_bytes 4 (sg s) ++ be_bytes 4 (sh s).

Definition sha256 (msg : list byte) : list byte :=
  let padded := pad msg in
  digest (fold_left compress (chunks (length padded) 64 padded) H0).

End Sha256.

(** ** Base58 and Base58Check (the [bs58check] package)

    [keys.js] calls [bs58check.decode] and [bs58check.encode]. The package
    is modelled by the function it computes: Base58 is the positional
    notation in base 58 of the big-endian number held by the bytes, with
    one ['1'] per leading zero byte, and Base58Check appends the first
    four bytes of the double SHA-256 of the payload. *)

Module Base58.

Definition ALPHABET : string :=
  "123456789ABCDEFGHJKLMNPQRSTUVWXYZabcdefghijkmnopqrstuvwxyz".

Definition alphabet : list ascii := String.list_ascii_of_string ALPHABET.

Definition digit_char (d : N) : ascii :=
  default "1"%char (alphabet !! N.to_nat d).

Definition char_digit (c : ascii) : option N :=
  (λ p, N.of_nat p.1) <$> list_find (λ a, a = c) alphabet.

(** Digits of [n] in base [B], least significant first. *)
Fixpoint digits_le (B : N) (fuel : nat) (n : N) : list N :=
  match fuel with
  | O => []
  | S fuel' =>
      if (n =? 0)%N then [] else (n mod B)%N :: digits_le B fuel' (n / B)%N
  end.

Definition to_base (B n : N) : list N :=
  rev (digits_le B (N.size_nat n) n).

Definition of_base (B : N) (ds : list N) : N :=
  fold_left (λ acc d, acc * B + d)%N ds 0%N.

(** Number of leading zero digits. *)
Fixpoint leading_zeros (l : list N) : nat :=
  match l with
  | x :: rest => if (x =? 0)%N then S (leading_zeros rest) else O
  | [] => O
  end.

(** One ['1'] per leading zero byte, then the big-endian number in base
    58. *)
Definition encode (source : list byte) : string :=
  let zeroes := leading_zeros (Byte.to_N <$> source) in
  let n := of_base 256 (Byte.to_N <$> source) in
  String.string_of_list_ascii (replicate zeroes "1"%char ++ (digit_char <$> to_base 58 n)).

(** [None] when a character is outside the alphabet (the package then
    throws). *)
Definition decodeUnsafe (source : string) : option (list byte) :=
  ds ← mapM char_digit (String.list_ascii_of_string source);
  let zeroes := leading_zeros ds in
  Some (replicate zeroes x00 ++ (Hex.byte_of_N <$> to_base 256 (of_base 58 ds))).

End Base58.

Module Bs58check.

(** The checksum is the double SHA-256 of the payload; four bytes of it
    are appended by [encode] and compared by [decodeRaw]. *)
Definition checksumFn (payload : list byte) : list byte :=
  Sha256.sha256 (Sha256.sha256 payload).

Definition encode (payload : list byte) : string :=
  Base58.encode (payload ++ take 4 (checksumFn payload)).

(** [buffer.slice(0, -4)] and [buffer.slice(-4)], compared byte by byte
    with exclusive or; a missing byte reads as 0. *)
Definition decodeRaw (buffer : list byte) : option (list byte) :=
  let payload := take (length buffer - 4) buffer in
  let checksum := drop (length buffer - 4) buffer in
  let newChecksum := checksumFn payload in
  if forallb
       (λ i, N.lxor (Hex.index_int checksum i) (Hex.index_int newChecksum i) =? 0)%N
       [0; 1; 2; 3]
  then Some payload else None.

(** [inl msg] is a thrown [Error] with that message. *)
Definition decode (s : string) : string + list byte :=
  match Base58.decodeUnsafe s with
  | None => inl "Non-base58 character"
  | Some buffer =>
      match decodeRaw buffer with
      | None => inl "Invalid checksum"
      | Some payload => inr payload
      end
  end.

End Bs58check.

(** ** keys.js *)

(** Modelled from the spec: [NETWORKS] of the networks module, which is
    not among the sources, an "enumerated value {MAINNET, TESTNET}". *)
Inductive Network := MAINNET | TESTNET.

#[global] Instance Network_eq_dec : EqDecision Network.
Proof. solve_decision. Defined.

Definition extendedPublicKeyVersions : list (string * string) :=
  [ ("xpub", "0488b21e");
    ("ypub", "049d7cb2");
    ("zpub", "04b2430c");
    ("Ypub", "0295b43f");
    ("Zpub", "02aa7ed3");
    ("tpub", "043587cf");
    ("upub", "044a5262");
    ("vpub", "045f1cf6");
    ("Upub", "024289ef");
    ("Vpub", "02575483") ].

(** [Object.keys(o)] and [o[k]] on the object literal above. *)
Definition Object_keys (o : list (string * string)) : list string := o.*1.

Fixpoint Object_get (o : list (string * string)) (k : string) : option string :=
  match o with
  | [] => None
  | (k', v) :: rest => if decide (k' = k) then Some v else Object_get rest k
  end.

(** [array.indexOf(x)], with [None] for -1. *)
Definition indexOf (x : string) (l : list string) : option nat :=
  fst <$> list_find (λ y, y = x) l.

(** A JavaScript string is truthy unless it is empty. *)
Definition truthy (s : string) : bool := negb (bool_decide (s = "")).

(** [s.slice(0, 4)] *)
Definition slice_0_4 (s : string) : string := String.substring 0 4 s.

(** Code units that [String.prototype.trim] removes, among those below 256. *)
Definition is_whitespace (c : ascii) : bool :=
  match c with
  | "009" | "010" | "011" | "012" | "013" | " " | "160" => true
  | _ => false
  end%char.

Fixpoint trimStart (s : string) : string :=
  match s with
  | String c rest => if is_whitespace c then trimStart rest else s
  | EmptyString => EmptyString
  end.

Fixpoint trimEnd (s : string) : string :=
  match s with
  | String c rest =>
      match trimEnd rest with
      | EmptyString => if is_whitespace c then EmptyString else String c EmptyString
      | rest' => String c rest'
      end
  | EmptyString => EmptyString
  end.

Definition trim (s : string) : string := trimEnd (trimStart s).

Definition validatePrefix (prefix prefixType : string) : option string :=
  match indexOf prefix (Object_keys extendedPublicKeyVersions) with
  | None => Some ("Invalid " +:+ prefixType +:+ " version for extended public key conversion")
  | Some _ => None
  end.

(** The result object of a conversion; [message] is absent ([None]) from
    the objects built on the error paths. *)
Record ConvertedExtendedPublicKey := {
  extendedPublicKey : string;
  message : option string;
  error : string
}.

(** Reading a prefix that is not a key of the table gives [undefined], on
    which [Buffer.from] throws inside the [try]; the two prefix checks
    before it make that branch unreachable. *)
Definition Buffer_from_undefined_message : string :=
  "The first argument must be one of type string, Buffer, ArrayBuffer, Array, or Array-like Object. Received type undefined".

Definition extendedPublicKeyConvert (key targetPrefix : string)
  : ConvertedExtendedPublicKey :=
  match validatePrefix targetPrefix "target" with
  | Some targetError =>
      {| extendedPublicKey := key; message := None; error := targetError |}
  | None =>
      let sourcePrefix := slice_0_4 key in
      match validatePrefix sourcePrefix "source" with
      | Some sourceError =>
          {| extendedPublicKey := key; message := None; error := sourceError |}
      | None =>
          let caught (err_message : string) :=
            {| extendedPublicKey := key; message := None;
               error := "Unable to convert extended public key: " +:+ err_message |} in
          match Bs58check.decode (trim key) with
          | inl err_message => caught err_message
          | inr decodedExtendedPublicKey =>
              let extendedPublicKeyNoPrefix := drop 4 decodedExtendedPublicKey in
              match Object_get extendedPublicKeyVersions targetPrefix with
              | None => caught Buffer_from_undefined_message
              | Some version =>
                  let extendedPublicKeyNewPrefix :=
                    Hex.from_hex version ++ extendedPublicKeyNoPrefix in
                  {| extendedPublicKey := Bs58check.encode extendedPublicKeyNewPrefix;
                     message := Some ("Your extended public key has been converted from "
                                      +:+ sourcePrefix +:+ " to " +:+ targetPrefix);
                     error := "" |}
              end
          end
      end
  end.

Definition extendedPublicKeyNetworkValidateion (key : string) (network : Network)
  : string :=
  let requiredPrefix :=
    "'xpub'" +:+ (if decide (network = TESTNET) then " or 'tpub'" else "") in
  let notXpubError := "Extended public key must begin with " +:+ requiredPrefix +:+ "." in
  let prefix := slice_0_4 key in
  if negb (bool_decide (prefix = "xpub")
           || (bool_decide (network = TESTNET) && bool_decide (prefix = "tpub")))
  then notXpubError
  else "".

(** The argument is a string here; [null] and [undefined] take the same
    branch as the empty string. *)
Definition preExtendedPublicKeyValidation (key : string) (network : Network)
  : string :=
  if bool_decide (key = "") then "Extended public key cannot be blank."
  else if String.length key <? 111 then "Extended public key length is too short."
  else "".

(** [bip32.fromBase58(inputString, networkData(network))]: [None] when it
    returns, [Some e] when it throws, [e] being the text that the template
    literal makes of the exception. *)
Class Bip32 := bip32_fromBase58 : string → Network → option string.

Definition validateExtendedPublicKey `{Bip32} (inputString : string)
  (network : Network) : string :=
  let preliminaryErrors := preExtendedPublicKeyValidation inputString network in
  if negb (bool_decide (preliminaryErrors = "")) then preliminaryErrors
  else
    let networkError := extendedPublicKeyNetworkValidateion inputString network in
    if negb (bool_decide (networkError = "")) then networkError
    else
      match bip32_fromBase58 inputString network with
      | Some e => "Invalid extended public key: " +:+ e
      | None => ""
      end.

Definition convertAndValidateExtendedPublicKey `{Bip32} (key : string)
  (network : Network) : ConvertedExtendedPublicKey :=
  let targetPrefix := if decide (network = TESTNET) then "tpub" else "xpub" in
  let preliminaryErrors := preExtendedPublicKeyValidation key network in
  let convert_and_validate :=
    let convertedExtendedPublicKey := extendedPublicKeyConvert key targetPrefix in
    if negb (bool_decide (extendedPublicKey convertedExtendedPublicKey = key)) then
      let extendedPublicKeyValidation :=
        validateExtendedPublicKey (extendedPublicKey convertedExtendedPublicKey) network in
      if bool_decide (extendedPublicKeyValidation = "") then convertedExtendedPublicKey
      else {| extendedPublicKey := key; message := None;
              error := extendedPublicKeyValidation |}
    else convertedExtendedPublicKey in
  if negb (bool_decide (preliminaryErrors = "")) then
    {| extendedPublicKey := key; message := None; error := preliminaryErrors |}
  else
    let networkError := extendedPublicKeyNetworkValidateion key network in
    if bool_decide (networkError = "") then
      let extendedPublicKeyValidation := validateExtendedPublicKey key network in
      if bool_decide (extendedPublicKeyValidation = "") then
        {| extendedPublicKey := key; message := Some ""; error := "" |}
      else convert_and_validate
    else convert_and_validate.

(** ** keys.js: validation of a public key *)

(** What [validatePublicKey] calls: [validateHex] of the utils module,
    which is not among the sources and returns its error message, empty
    when there is none; and [ECPair.fromPublicKey] of bitcoinjs, [None]
    when it returns and [Some e] when it throws, [e] being the text that
    the template literal makes of the exception. *)
Class PublicKeyChecks := {
  validateHex : string → string;
  ECPair_fromPublicKey : Hex.Buffer → option string
}.

(** The argument is a string here; [null] and [undefined] take the same
    branch as the empty string. *)
Definition validatePublicKey `{PublicKeyChecks} (inputString : string) : string :=
  if bool_decide (inputString = "") then "Public key cannot be blank."
  else
    let error := validateHex inputString in
    if negb (bool_decide (error = "")) then error
    else
      match ECPair_fromPublicKey (Hex.from_hex inputString) with
      | Some e => "Invalid public key " +:+ e +:+ "."
      | None => ""
      end.

(** ** keys.js: public key compression *)

Definition compressPublicKey (publicKey : string) : string :=
  let pubkeyBuffer := Hex.from_hex publicKey in
  let prefix : N :=
    if negb (N.land (Hex.index_int pubkeyBuffer 64) 1 =? 0)%N then 3%N else 2%N in
  let prefixBuffer := [Hex.byte_of_N prefix] in
  Hex.to_hex (prefixBuffer ++ Hex.slice 1 (1 + 32) pubkeyBuffer).

(** ** Vocabulary of the statements about keys.js *)

(** One of the ten prefixes of the version table. *)
Definition known_prefix (prefix : string) : Prop :=
  prefix ∈ Object_keys extendedPublicKeyVersions.

(** The prefixes that [extendedPublicKeyNetworkValidateion] lets through. *)
Definition canonical_prefix (network : Network) (prefix : string) : Prop :=
  prefix = "xpub" ∨ (network = TESTNET ∧ prefix = "tpub").

Definition carries_message (r : ConvertedExtendedPublicKey) : Prop :=
  ∃ m, message r = Some m ∧ m ≠ "".

Definition carries_error (r : ConvertedExtendedPublicKey) : Prop :=
  error r ≠ "".

(** The invariant of a conversion result for the input [key]. *)
Definition conversion_invariant (key : string) (r : ConvertedExtendedPublicKey)
  : Prop :=
  ¬ (carries_message r ∧ carries_error r)
  ∧ (carries_error r → extendedPublicKey r = key).

(** What the statements assume of the bip32 package: it accepts a string
    only if that string is the Base58Check encoding of 78 bytes. *)
Class Bip32Serialization `{Bip32} :=
  bip32_decodes : ∀ s network,
    bip32_fromBase58 s network = None →
    ∃ buffer, Bs58check.decode s = inr buffer ∧ length buffer = 78.

(** [networkData(network).bip32.public] *)
Definition bip32_public (network : Network) : N :=
  match network with
  | MAINNET => 0x0488b21e
  | TESTNET => 0x043587cf
  end.

(** The checks that [bip32.fromBase58] makes on the serialization of a
    public key, without the test that the point is on the curve; the
    instance on which the statements are exercised. *)
Definition bip32_serialization_checks : Bip32 := λ inputString network,
  match Bs58check.decode inputString with
  | inl msg => Some ("Error: " +:+ msg)
  | inr buffer =>
      if negb (length buffer =? 78) then Some "TypeError: Invalid buffer length"
      else
        let uint32 (offset : nat) :=
          Base58.of_base 256 (Byte.to_N <$> take 4 (drop offset buffer)) in
        let depth := Hex.index_int buffer 4 in
        if negb (uint32 0%nat =? bip32_public network)%N then
          Some "TypeError: Invalid network version"
        else if (depth =? 0)%N && negb (uint32 5%nat =? 0)%N then
          Some "TypeError: Invalid parent fingerprint"
        else if (depth =? 0)%N && negb (uint32 9%nat =? 0)%N then
          Some "TypeError: Invalid index"
        else None
  end.

(** Value of a digit list in base [B], least significant digit first. *)
Fixpoint value_le (B : N) (ds : list N) : N :=
  match ds with
  | [] => 0
  | d :: rest => d + B * value_le B rest
  end.

(** A big-endian digit list is canonical when its digits are below the
    base and the first one is not zero. *)
Definition canonical (B : N) (ds : list N) : Prop :=
  Forall (λ d, (d < B)%N) ds ∧ head ds ≠ Some 0%N.

(** The version bytes [v] (in hex) make the Base58Check encoding of every
    78-byte serialization start with the four characters [p]. *)
Definition version_yields_prefix (p v : string) : bool :=
  let ver := Byte.to_N <$> Hex.from_hex v in
  let V := Base58.of_base 256 ver in
  let D := ((V * 256 ^ 78) / 58 ^ 107)%N in
  bool_decide (length ver = 4)
  && negb (bool_decide (head ver = Some 0%N))
  && (D * 58 ^ 107 <=? V * 256 ^ 78)%N
  && ((V + 1) * 256 ^ 78 <=? (D + 1) * 58 ^ 107)%N
  && (58 ^ 3 <=? D)%N && (D <? 58 ^ 4)%N
  && bool_decide
       (String.string_of_list_ascii (Base58.digit_char <$> Base58.to_base 58 D) = p).

(** Keys used in the examples: the master public key of the first BIP32
    test vector, and the same material with a non-zero parent fingerprint
    at depth 0 under the [ypub] version. *)
Definition example_xpub : string :=
  "xpub661MyMwAqRbcFtXgS5sYJABqqG9YLmC4Q1Rdap9gSE8NqtwybGhePY2gZ29ESFjqJoCu1Rupje8YtGqsefD265TMg7usUDFdp6W1EGMcet8".

(** The key with an unknown prefix of the documentation of
    [validateExtendedPublicKey]. *)
Definition example_apub : string :=
  "apub6CCHViYn5VzKSmKD9cK9LBDPz9wBLV7owXJcNDioETNvhqhVtj3ABnVUERN9aV1RGTX9YpyPHnC4Ekzjnr7TZthsJRBiXA4QCeXNHEwxLab".

Definition example_bad_ypub : string :=
  "ypub6QqdH2cNfSD2TkJM5LvwvdW5E7CYfZzh4SXcDApvcjj6Wp6wifKUWSENLrJaTE4eomFcgJ6ittGxxohCsA8foYxuFrTTWb1mu6GUPKTYE5a".

(** ** The transaction module *)

(** A thrown [Error] carries its message. *)
Inductive Result (A : Type) : Type :=
  | Ok (a : A)
  | Err (msg : string).
Arguments Ok {A} a.
Arguments Err {A} msg.

#[global] Instance Result_ret : MRet Result := λ A a, Ok a.
#[global] Instance Result_bind : MBind Result := λ A B f m,
  match m with
  | Ok a => f a
  | Err msg => Err msg
  end.

(** A bitcoinjs payment read through [.output]. *)
Record Script := { output : Hex.Buffer }.

(** Modelled from the spec: the multisig descriptor of the multisig
    module, which is not among the sources, "an opaque value exposing
    required-signer count, ordered list of member public keys, address
    type, and derivable redeem/witness scripts". The fields named after
    the accessors ([multisigRequiredSigners], [multisigPublicKeys], ...)
    are what those return; the two others are the properties [network]
    and [input] that the transaction module reads directly. *)
Record Multisig := {
  multisig_network : Network;
  multisig_input : Hex.Buffer;
  multisigRequiredSigners : nat;
  multisigPublicKeys : list string;
  multisigAddressType : string;
  multisigRedeemScript : Script;
  multisigWitnessScript : Script
}.

Record MultisigTransactionInput := {
  txid : string;
  index : nat;
  multisig : Multisig
}.

Record TransactionOutput := {
  address : string;
  amountSats : Z
}.

(** A bitcoinjs [Transaction], seen through the fields this module sets:
    inputs keep the outpoint they were added with. *)
Record TransactionIn := {
  in_txid : string;
  in_index : nat;
  script : Hex.Buffer;
  witness : list Hex.Buffer
}.

Record TransactionOut := {
  out_address : string;
  out_value : Z
}.

Record Transaction := {
  version : Z;
  ins : list TransactionIn;
  outs : list TransactionOut
}.

(** The argument object of [bitcoin.payments.p2ms]. *)
Record P2ms := {
  p2ms_network : Network;
  p2ms_output : Hex.Buffer;
  p2ms_input : Hex.Buffer
}.

(** What [validateMultisigSignature] does: it throws, or it returns
    [false] ([Returned None]) or a public key. *)
Inductive SignatureValidation :=
  | Threw (e : string)
  | Returned (publicKey : option string).

(** The functions that the transaction module imports from its sibling
    modules (inputs, outputs, signatures, script, multisig) and from
    bitcoinjs, none of which is among the sources: they are parameters.
    [P2WSH] and [P2SH_P2WSH] are the address-type constants of that name;
    a validator returns its error message, empty when there is none.
    The three methods of [bitcoin.TransactionBuilder] that the module
    calls may throw: each parameter gives [Some e] when the method
    throws an error of message [e] and [None] when it returns, from the
    network of the builder, what the builder holds, and the arguments. *)
Class Collaborators := {
  P2WSH : string;
  P2SH_P2WSH : string;
  validateMultisigInputs : list MultisigTransactionInput → string;
  validateOutputs : Network → list TransactionOutput → string;
  validateMultisigSignature :
    Network → list MultisigTransactionInput → list TransactionOutput →
    nat → string → SignatureValidation;
  signatureNoSighashType : string → string;
  scriptToHex : Script → string;
  script_fromASM : string → Hex.Buffer;
  payments_p2ms : P2ms → P2ms;
  generateMultisigFromRaw : string → P2ms → Multisig;
  TransactionBuilder_addInput : Network → Transaction → string → nat → option string;
  TransactionBuilder_addOutput : Network → Transaction → string → Z → option string;
  TransactionBuilder_buildIncomplete : Network → Transaction → option string
}.

(** [array.join(' ')] *)
Fixpoint join_space (l : list string) : string :=
  match l with
  | [] => ""
  | [x] => x
  | x :: rest => x +:+ " " +:+ join_space rest
  end.

Section transactions.
Context `{Collaborators}.

(** The loop [for (inputIndex = 0; inputIndex < inputs.length; ...)] of
    [unsignedMultisigTransaction], over the inputs that remain:
    [addInput] throws, or the builder gains the outpoint, without
    unlocking data. *)
Fixpoint addInputs (network : Network) (remaining : list MultisigTransactionInput)
  (transactionBuilder : Transaction) : Result Transaction :=
  match remaining with
  | [] => Ok transactionBuilder
  | input :: rest =>
      match TransactionBuilder_addInput network transactionBuilder
              (txid input) (index input) with
      | Some e => Err e
      | None =>
          addInputs network rest
            {| version := version transactionBuilder;
               ins := ins transactionBuilder
                      ++ [{| in_txid := txid input; in_index := index input;
                             script := []; witness := [] |}];
               outs := outs transactionBuilder |}
      end
  end.

(** The loop over the outputs: [addOutput] throws, or the builder gains
    the output. *)
Fixpoint addOutputs (network : Network) (remaining : list TransactionOutput)
  (transactionBuilder : Transaction) : Result Transaction :=
  match remaining with
  | [] => Ok transactionBuilder
  | output :: rest =>
      match TransactionBuilder_addOutput network transactionBuilder
              (address output) (amountSats output) with
      | Some e => Err e
      | None =>
          addOutputs network rest
            {| version := version transactionBuilder;
               ins := ins transactionBuilder;
               outs := outs transactionBuilder
                       ++ [{| out_address := address output;
                              out_value := amountSats output |}] |}
      end
  end.

(** An error of a validator is thrown; then the builder is filled, and
    any of its methods may throw. When they all return, the transaction
    built holds what was added, in order, and [fromHex (toHex tx)] is
    taken to give [tx] back. *)
Definition unsignedMultisigTransaction (network : Network)
  (inputs : list MultisigTransactionInput) (outputs : list TransactionOutput)
  : Result Transaction :=
  let error := validateMultisigInputs inputs in
  if truthy error then Err error
  else
    let error := validateOutputs network outputs in
    if truthy error then Err error
    else
      let transactionBuilder := {| version := 1; ins := []; outs := [] |} in
      transactionBuilder ← addInputs network inputs transactionBuilder;
      transactionBuilder ← addOutputs network outputs transactionBuilder;
      match TransactionBuilder_buildIncomplete network transactionBuilder with
      | Some e => Err e
      | None => Ok transactionBuilder
      end.

(** The [forEach] over the signer rows: the first row shorter than the
    input list throws. *)
Fixpoint checkTransactionSignatures (required : nat)
  (transactionSignatureIndex : nat) (transactionSignatures : list (list (option string)))
  : Result () :=
  match transactionSignatures with
  | [] => Ok ()
  | transactionSignature :: rest =>
      if length transactionSignature <? required then
        Err ("Insufficient input signatures for transaction signature "
             +:+ pretty (transactionSignatureIndex + 1) +:+ ": require "
             +:+ pretty required +:+ ", received "
             +:+ pretty (length transactionSignature) +:+ ".")
      else checkTransactionSignatures required (S transactionSignatureIndex) rest
  end.

(** [Boolean(inputSignature)] on an entry of a row: [None] stands for
    [undefined] and [null]. *)
Definition Boolean (inputSignature : option string) : bool :=
  match inputSignature with
  | Some s => truthy s
  | None => false
  end.

(** [transactionSignatures.map(row => row[inputIndex]).filter(Boolean)] *)
Definition collectInputSignatures (transactionSignatures : list (list (option string)))
  (inputIndex : nat) : list string :=
  omap (λ inputSignature, if Boolean inputSignature then inputSignature else None)
    ((λ transactionSignature, mjoin (transactionSignature !! inputIndex))
       <$> transactionSignatures).

(** The [forEach] that fills [inputSignaturesByPublicKey]. The object
    starts empty and is keyed by public keys in hex, so a lookup never
    falls through to a property of [Object.prototype]: it is a finite map. *)
Fixpoint signaturesByPublicKey (network : Network)
  (inputs : list MultisigTransactionInput) (outputs : list TransactionOutput)
  (inputIndex : nat) (inputSignatures : list string)
  (inputSignaturesByPublicKey : gmap string string) : Result (gmap string string) :=
  match inputSignatures with
  | [] => Ok inputSignaturesByPublicKey
  | inputSignature :: rest =>
      match validateMultisigSignature network inputs outputs inputIndex inputSignature with
      | Threw e =>
          Err ("Invalid signature for input " +:+ pretty (inputIndex + 1) +:+ ": "
               +:+ inputSignature +:+ " (" +:+ e +:+ ")")
      | Returned publicKey =>
          match publicKey with
          | Some pk =>
              if truthy pk then
                if Boolean (inputSignaturesByPublicKey !! pk) then
                  Err ("Duplicate signature for input " +:+ pretty (inputIndex + 1)
                       +:+ ": " +:+ inputSignature)
                else
                  signaturesByPublicKey network inputs outputs inputIndex rest
                    (<[pk := inputSignature]> inputSignaturesByPublicKey)
              else
                Err ("Invalid signature for input " +:+ pretty (inputIndex + 1)
                     +:+ ": " +:+ inputSignature)
          | None =>
              Err ("Invalid signature for input " +:+ pretty (inputIndex + 1)
                   +:+ ": " +:+ inputSignature)
          end
      end
  end.

(** [publicKeys.map(pk => byPublicKey[pk]).filter(s => s ? signatureNoSighashType(s) : s)] *)
Definition sortSignatures (publicKeys : list string)
  (inputSignaturesByPublicKey : gmap string string) : list string :=
  omap (λ signature,
          match signature with
          | Some s =>
              if truthy s && truthy (signatureNoSighashType s) then Some s else None
          | None => None
          end)
    ((λ publicKey, inputSignaturesByPublicKey !! publicKey) <$> publicKeys).

Definition multisigWitnessField (multisig : Multisig) (sortedSignatures : list string)
  : list Hex.Buffer :=
  let witness :=
    [""] ++ ((λ s, signatureNoSighashType s +:+ "01") <$> sortedSignatures) in
  let witnessScript := multisigWitnessScript multisig in
  let witness := witness ++ [scriptToHex witnessScript] in
  Hex.from_hex <$> witness.

Definition multisigScriptSig (multisig : Multisig) (signersInputSignatures : list string)
  : Multisig :=
  let signatureOps :=
    join_space ((λ signature, signatureNoSighashType signature +:+ "01")
                  <$> signersInputSignatures) in
  let inputScript := "OP_0 " +:+ signatureOps in
  let inputScriptBuffer := script_fromASM inputScript in
  let rawMultisig :=
    payments_p2ms {| p2ms_network := multisig_network multisig;
                     p2ms_output := output (multisigRedeemScript multisig);
                     p2ms_input := inputScriptBuffer |} in
  generateMultisigFromRaw (multisigAddressType multisig) rawMultisig.

Definition setWitness (inputIndex : nat) (w : list Hex.Buffer) (tx : Transaction)
  : Transaction :=
  {| version := version tx;
     ins := alter (λ i, {| in_txid := in_txid i; in_index := in_index i;
                           script := script i; witness := w |}) inputIndex (ins tx);
     outs := outs tx |}.

Definition setScript (inputIndex : nat) (sc : Hex.Buffer) (tx : Transaction)
  : Transaction :=
  {| version := version tx;
     ins := alter (λ i, {| in_txid := in_txid i; in_index := in_index i;
                           script := sc; witness := witness i |}) inputIndex (ins tx);
     outs := outs tx |}.

(** One iteration of the loop over the inputs. *)
Definition signInput (network : Network) (inputs : list MultisigTransactionInput)
  (outputs : list TransactionOutput) (transactionSignatures : list (list (option string)))
  (inputIndex : nat) (input : MultisigTransactionInput) (signedTransaction : Transaction)
  : Result Transaction :=
  let inputSignatures := collectInputSignatures transactionSignatures inputIndex in
  let requiredSignatures := multisigRequiredSigners (multisig input) in
  if length inputSignatures <? requiredSignatures then
    Err ("Insufficient signatures for input  " +:+ pretty (inputIndex + 1)
         +:+ ": require " +:+ pretty requiredSignatures +:+ ",  received "
         +:+ pretty (length inputSignatures) +:+ ".")
  else
    inputSignaturesByPublicKey ←
      signaturesByPublicKey network inputs outputs inputIndex inputSignatures ∅;
    let publicKeys := multisigPublicKeys (multisig input) in
    let sortedSignatures := sortSignatures publicKeys inputSignaturesByPublicKey in
    if decide (multisigAddressType (multisig input) = P2WSH) then
      let witness := multisigWitnessField (multisig input) sortedSignatures in
      Ok (setWitness inputIndex witness signedTransaction)
    else if decide (multisigAddressType (multisig input) = P2SH_P2WSH) then
      let witness := multisigWitnessField (multisig input) sortedSignatures in
      let signedTransaction := setWitness inputIndex witness signedTransaction in
      let scriptSig := multisigRedeemScript (multisig input) in
      Ok (setScript inputIndex
            (Hex.byte_of_N (N.of_nat (length (output scriptSig))) :: output scriptSig)
            signedTransaction)
    else
      let scriptSig := multisigScriptSig (multisig input) sortedSignatures in
      Ok (setScript inputIndex (multisig_input scriptSig) signedTransaction).

(** The loop [for (inputIndex = 0; inputIndex < inputs.length; inputIndex++)],
    entered at [inputIndex] with the inputs that remain. *)
Fixpoint signInputs (network : Network) (inputs : list MultisigTransactionInput)
  (outputs : list TransactionOutput) (transactionSignatures : list (list (option string)))
  (inputIndex : nat) (remaining : list MultisigTransactionInput)
  (signedTransaction : Transaction) : Result Transaction :=
  match remaining with
  | [] => Ok signedTransaction
  | input :: rest =>
      signedTransaction ←
        signInput network inputs outputs transactionSignatures inputIndex input
          signedTransaction;
      signInputs network inputs outputs transactionSignatures (S inputIndex) rest
        signedTransaction
  end.

Definition signedMultisigTransaction (network : Network)
  (inputs : list MultisigTransactionInput) (outputs : list TransactionOutput)
  (transactionSignatures : list (list (option string))) : Result Transaction :=
  unsignedTransaction ← unsignedMultisigTransaction network inputs outputs;
  if bool_decide (length transactionSignatures = 0) then
    Err "At least one transaction signature is required."
  else
    _ ← checkTransactionSignatures (length inputs) 0 transactionSignatures;
    signInputs network inputs outputs transactionSignatures 0 inputs unsignedTransaction.

End transactions.

(** ** Vocabulary of the statements about the transaction module *)

(** Every signature stored in the object is truthy. *)
Definition truthy_values (m : gmap string string) : Prop :=
  ∀ k v, m !! k = Some v → v ≠ "".

Section signatures.
Context `{Collaborators}.
Variables (network : Network) (inputs : list MultisigTransactionInput)
  (outputs : list TransactionOutput).

(** The public key that a signature is attributed to on the input
    [inputIndex], when the validator returns a truthy one. *)
Definition resolved_key (inputIndex : nat) (signature : string) : option string :=
  match validateMultisigSignature network inputs outputs inputIndex signature with
  | Returned (Some publicKey) => if truthy publicKey then Some publicKey else None
  | _ => None
  end.

(** The candidates of an input are accepted: there are at least as many
    as the descriptor requires, each resolves to a public key, and no two
    resolve to the same one. *)
Definition input_accepted (transactionSignatures : list (list (option string)))
  (inputIndex : nat) (input : MultisigTransactionInput) : Prop :=
  let inputSignatures := collectInputSignatures transactionSignatures inputIndex in
  multisigRequiredSigners (multisig input) ≤ length inputSignatures
  ∧ Forall (λ s, is_Some (resolved_key inputIndex s)) inputSignatures
  ∧ NoDup (omap (resolved_key inputIndex) inputSignatures).

(** The signatures [sorted] follow the order of the public keys [pks]:
    the keys they resolve to form a subsequence of [pks]. *)
Definition in_key_order (inputIndex : nat) (sorted pks : list string) : Prop :=
  ∃ ks, Forall2 (λ s k, resolved_key inputIndex s = Some k) sorted ks
        ∧ ks `sublist_of` pks.

(** What comes before the loop over the inputs goes through: the unsigned
    transaction is built (no validator reports an error and no method of
    the builder throws), there is a row of signatures, and no row is
    shorter than the list of inputs. *)
Definition well_formed_call (transactionSignatures : list (list (option string)))
  : Prop :=
  (∃ unsignedTransaction,
     unsignedMultisigTransaction network inputs outputs = Ok unsignedTransaction)
  ∧ transactionSignatures ≠ []
  ∧ Forall (λ row, length inputs ≤ length row) transactionSignatures.

(** The candidates of an input are valid for its descriptor: each one
    resolves to a public key of the descriptor, and keeps something once
    its sighash byte is stripped. *)
Definition valid_signatures (transactionSignatures : list (list (option string)))
  (inputIndex : nat) (input : MultisigTransactionInput) : Prop :=
  ∀ s, s ∈ collectInputSignatures transactionSignatures inputIndex →
    (∃ pk, pk ∈ multisigPublicKeys (multisig input)
           ∧ resolved_key inputIndex s = Some pk)
    ∧ signatureNoSighashType s ≠ "".

(** A legacy input: its address type takes the last branch. *)
Definition legacy (input : MultisigTransactionInput) : Prop :=
  multisigAddressType (multisig input) ≠ P2WSH
  ∧ multisigAddressType (multisig input) ≠ P2SH_P2WSH.

End signatures.

(** A small instance of the collaborators, on which the statements are
    exercised: a signature that starts with [02] or [03] is attributed to
    the key spelled by its first four characters, one that starts with
    [ff] makes the validator throw, any other is attributed to no key;
    scripts are kept as the text they were assembled from; the builder
    never throws. *)
Definition example_collaborators : Collaborators := {|
  P2WSH := "P2WSH";
  P2SH_P2WSH := "P2SH-P2WSH";
  validateMultisigInputs := λ _, "";
  validateOutputs := λ _ _, "";
  validateMultisigSignature := λ _ _ _ _ signature,
    let start := String.substring 0 2 signature in
    if bool_decide (start = "02") || bool_decide (start = "03") then
      Returned (Some (String.substring 0 4 signature))
    else if bool_decide (start = "ff") then Threw "Error: Expected DER sequence"
    else Returned None;
  signatureNoSighashType := λ signature, signature;
  scriptToHex := λ sc, Hex.to_hex (output sc);
  script_fromASM := String.list_byte_of_string;
  payments_p2ms := λ a, a;
  generateMultisigFromRaw := λ addressType raw,
    {| multisig_network := p2ms_network raw;
       multisig_input := p2ms_input raw;
       multisigRequiredSigners := 0;
       multisigPublicKeys := [];
       multisigAddressType := addressType;
       multisigRedeemScript := {| output := p2ms_output raw |};
       multisigWitnessScript := {| output := p2ms_output raw |} |};
  TransactionBuilder_addInput := λ _ _ _ _, None;
  TransactionBuilder_addOutput := λ _ _ _ _, None;
  TransactionBuilder_buildIncomplete := λ _ _, None
|}.

(** A 2-of-3 legacy descriptor over the keys [02aa], [02bb], [03cc], and
    an input that spends with it. *)
Definition example_multisig : Multisig := {|
  multisig_network := TESTNET;
  multisig_input := [];
  multisigRequiredSigners := 2;
  multisigPublicKeys := ["02aa"; "02bb"; "03cc"];
  multisigAddressType := "P2SH";
  multisigRedeemScript := {| output := [x52; xae] |};
  multisigWitnessScript := {| output := [] |}
|}.

Definition example_input (n : nat) : MultisigTransactionInput :=
  {| txid := "ae"; index := n; multisig := example_multisig |}.

Definition example_outputs : list TransactionOutput :=
  [ {| address := "2N"; amountSats := 90000 |} ].

(** ** Further examples *)

(** The key of the first BIP32 test vector with a non-zero parent
    fingerprint at depth 0, under the [xpub] version. *)
Definition example_bad_xpub : string :=
  "xpub661MyMwTWkfYcT7EEz9KiYQa4946ix1C9L1PRmw3EjMDTiHiU19utNaEKeLzTKQjQ88ovpWASDvR5X5e9Tif1KHJPWm2vgCHdNCpzmNvjTY".

(** An instance on which the statements are exercised: the hex validator
    wants an even number of hexadecimal digits, and the point decoder
    looks at the length and at the first byte only. *)
Definition example_public_key_checks : PublicKeyChecks := {|
  validateHex := λ s,
    if negb (String.length s `mod` 2 =? 0) then "Invalid hex: odd-length string."
    else if forallb (λ c, bool_decide (is_Some (Hex.hex_value c)))
              (String.list_ascii_of_string s) then ""
    else "Invalid hex: only characters a-f, A-F and 0-9 allowed.";
  ECPair_fromPublicKey := λ buffer,
    match buffer with
    | x :: _ =>
        if (Byte.eqb x x04 && (length buffer =? 65))
           || ((Byte.eqb x x02 || Byte.eqb x x03) && (length buffer =? 33))
        then None else Some "TypeError: Expected Point"
    | [] => Some "TypeError: Expected Point"
    end
|}.

(** The example descriptor under another address type, with a witness
    script, and an input that spends with it. *)
Definition example_multisig_of (addressType : string) : Multisig := {|
  multisig_network := TESTNET;
  multisig_input := [];
  multisigRequiredSigners := 2;
  multisigPublicKeys := ["02aa"; "02bb"; "03cc"];
  multisigAddressType := addressType;
  multisigRedeemScript := {| output := [x00; x20; x7f] |};
  multisigWitnessScript := {| output := [x52; xae] |}
|}.

Definition example_input_of (addressType : string) (n : nat)
  : MultisigTransactionInput :=
  {| txid := "ae"; index := n; multisig := example_multisig_of addressType |}.

(** The example collaborators with validators that refuse an empty list
    of inputs and an empty list of outputs, and a builder that refuses
    an outpoint it holds already. *)
Definition example_collaborators_nonempty : Collaborators := {|
  P2WSH := @P2WSH example_collaborators;
  P2SH_P2WSH := @P2SH_P2WSH example_collaborators;
  validateMultisigInputs := λ inputs,
    if bool_decide (inputs = []) then "At least one input is required." else "";
  validateOutputs := λ _ outputs,
    if bool_decide (outputs = []) then "At least one output is required." else "";
  validateMultisigSignature := @validateMultisigSignature example_collaborators;
  signatureNoSighashType := @signatureNoSighashType example_collaborators;
  scriptToHex := @scriptToHex example_collaborators;
  script_fromASM := @script_fromASM example_collaborators;
  payments_p2ms := @payments_p2ms example_collaborators;
  generateMultisigFromRaw := @generateMultisigFromRaw example_collaborators;
  TransactionBuilder_addInput := λ _ transactionBuilder txid index,
    if bool_decide (Exists (λ txin, in_txid txin = txid ∧ in_index txin = index)
                      (ins transactionBuilder))
    then Some ("Duplicate TxOut: " +:+ txid +:+ ":" +:+ pretty index)
    else None;
  TransactionBuilder_addOutput := λ _ _ _ _, None;
  TransactionBuilder_buildIncomplete := λ _ _, None
|}.

(** * Properties *)

(** ** Positional notation *)

Section positional.
Variable B : N.
Hypothesis B_ge_2 : (2 ≤ B)%N.

Local Open Scope N_scope.

Lemma of_base_snoc ds d : Base58.of_base B (ds ++ [d]) = Base58.of_base B ds * B + d.
Proof. unfold Base58.of_base. by rewrite fold_left_app. Qed.

Lemma of_base_rev ds : Base58.of_base B (rev ds) = value_le B ds.
Proof.
  induction ds as [|d ds IH]; [done|].
  cbn [rev value_le]. rewrite of_base_snoc, IH. lia.
Qed.

Lemma of_base_value ds : Base58.of_base B ds = value_le B (rev ds).
Proof. by rewrite <- of_base_rev, rev_involutive. Qed.

Lemma value_le_lt ds : Forall (λ d, d < B) ds → value_le B ds < B ^ N.of_nat (length ds).
Proof.
  induction 1 as [|d ds Hd _ IH]; [cbn; lia|].
  cbn [value_le length]. rewrite Nat2N.inj_succ, N.pow_succ_r'. nia.
Qed.

Lemma value_le_app a b :
  value_le B (a ++ b) = value_le B a + B ^ N.of_nat (length a) * value_le B b.
Proof.
  induction a as [|d a IH]; [cbn; lia|].
  cbn [app value_le length]. rewrite IH, Nat2N.inj_succ, N.pow_succ_r'. lia.
Qed.

Lemma value_le_lower ds :
  ds ≠ [] → last ds ≠ Some 0 → B ^ N.of_nat (length ds - 1) ≤ value_le B ds.
Proof.
  induction ds as [|d ds IH]; [done|]. intros _ Hlast.
  destruct ds as [|d' ds].
  - assert (d ≠ 0) by (intros ->; by apply Hlast). cbn [value_le length]. cbn. lia.
  - assert (Hl : last (d' :: ds) ≠ Some 0) by (by rewrite last_cons_cons in Hlast).
    specialize (IH ltac:(done) Hl).
    cbn [value_le length] in *.
    replace (S (S (length ds)) - 1)%nat with (S (S (length ds) - 1)) by lia.
    rewrite Nat2N.inj_succ, N.pow_succ_r'. nia.
Qed.

Lemma digits_le_0 fuel : Base58.digits_le B fuel 0 = [].
Proof. by destruct fuel. Qed.

Lemma div_lt_pow2 n fuel : n < 2 ^ N.of_nat (S fuel) → n / B < 2 ^ N.of_nat fuel.
Proof.
  rewrite Nat2N.inj_succ, N.pow_succ_r'. intros Hn.
  apply N.Div0.div_lt_upper_bound. nia.
Qed.

Lemma value_digits_le fuel n :
  n < 2 ^ N.of_nat fuel → value_le B (Base58.digits_le B fuel n) = n.
Proof.
  revert n. induction fuel as [|fuel IH]; intros n Hn.
  - cbn in *. lia.
  - cbn [Base58.digits_le]. destruct (N.eqb_spec n 0) as [->|Hne]; [done|].
    cbn [value_le]. rewrite IH by by apply div_lt_pow2.
    rewrite (N.div_mod' n B) at 3. lia.
Qed.

Lemma digits_le_bounded fuel n : Forall (λ d, d < B) (Base58.digits_le B fuel n).
Proof.
  revert n. induction fuel as [|fuel IH]; intros n; cbn; [constructor|].
  destruct (n =? 0); constructor; [|apply IH].
  apply N.mod_lt. lia.
Qed.

Lemma digits_le_nil fuel n :
  n < 2 ^ N.of_nat fuel → Base58.digits_le B fuel n = [] → n = 0.
Proof.
  intros Hn Hnil. rewrite <- (value_digits_le fuel n Hn), Hnil. done.
Qed.

Lemma digits_le_last fuel n :
  n < 2 ^ N.of_nat fuel → last (Base58.digits_le B fuel n) ≠ Some 0.
Proof.
  revert n. induction fuel as [|fuel IH]; intros n Hn; [done|].
  cbn [Base58.digits_le]. destruct (N.eqb_spec n 0) as [->|Hne]; [done|].
  pose proof (div_lt_pow2 _ _ Hn) as Hdiv.
  destruct (Base58.digits_le B fuel (n / B)) as [|d ds] eqn:Hrest.
  - apply digits_le_nil in Hrest; [|done].
    cbn. intros [= Hmod].
    pose proof (N.div_mod' n B). nia.
  - rewrite last_cons_cons, <- Hrest. by apply IH.
Qed.

Lemma digits_le_value fuel ds :
  (Forall (λ d, d < B) ds ∧ last ds ≠ Some 0) → value_le B ds < 2 ^ N.of_nat fuel →
  Base58.digits_le B fuel (value_le B ds) = ds.
Proof.
  intros [Hbound Hlast]. revert fuel.
  induction Hbound as [|d ds Hd Hbound IH]; intros fuel Hfuel.
  - apply digits_le_0.
  - assert (Hpos : value_le B (d :: ds) ≠ 0).
    { destruct ds as [|d' ds].
      - assert (d ≠ 0) by (intros ->; by apply Hlast). cbn [value_le]. lia.
      - pose proof (value_le_lower (d :: d' :: ds) ltac:(done) Hlast) as Hlow.
        assert (0 < B ^ N.of_nat (length (d :: d' :: ds) - 1)); [|lia].
        apply N.neq_0_lt_0, N.pow_nonzero. lia. }
    destruct fuel as [|fuel].
    { change (N.of_nat 0) with 0 in Hfuel. rewrite N.pow_0_r in Hfuel. lia. }
    cbn [Base58.digits_le]. destruct (N.eqb_spec (value_le B (d :: ds)) 0); [done|].
    cbn [value_le] in *.
    assert (Hmod : (d + B * value_le B ds) mod B = d).
    { rewrite (N.mul_comm B), N.Div0.mod_add. by apply N.mod_small. }
    assert (Hdiv : (d + B * value_le B ds) / B = value_le B ds).
    { rewrite (N.mul_comm B), N.div_add by lia.
      rewrite N.div_small by done. lia. }
    rewrite Hmod. f_equal.
    assert (Hfuel' : value_le B ds < 2 ^ N.of_nat fuel).
    { rewrite <- Hdiv. by apply div_lt_pow2. }
    rewrite Hdiv. destruct ds as [|d' ds]; [apply digits_le_0|].
    apply IH; [|done]. by rewrite last_cons_cons in Hlast.
Qed.

Lemma size_nat_lt n : n < 2 ^ N.of_nat (N.size_nat n).
Proof.
  destruct n as [|p]; [done|]. cbn [N.size_nat].
  induction p as [p IH|p IH|]; cbn [Pos.size_nat]; [| |done];
    rewrite Nat2N.inj_succ, N.pow_succ_r'; lia.
Qed.

Lemma of_base_to_base n : Base58.of_base B (Base58.to_base B n) = n.
Proof.
  unfold Base58.to_base. rewrite of_base_rev. apply value_digits_le, size_nat_lt.
Qed.

Lemma last_rev {A} (l : list A) : last (rev l) = head l.
Proof. destruct l as [|x l]; [done|]. cbn [rev]. by rewrite last_snoc. Qed.

Lemma to_base_canonical n : canonical B (Base58.to_base B n).
Proof.
  unfold Base58.to_base. split.
  - apply Forall_rev, digits_le_bounded.
  - rewrite <- last_rev, rev_involutive. apply digits_le_last, size_nat_lt.
Qed.

Lemma to_base_of_base ds : canonical B ds → Base58.to_base B (Base58.of_base B ds) = ds.
Proof.
  intros [Hb Hh]. unfold Base58.to_base. rewrite of_base_value.
  rewrite digits_le_value; [apply rev_involutive| |apply size_nat_lt].
  split; [by apply Forall_rev|by rewrite last_rev].
Qed.

Lemma of_base_lt ds : Forall (λ d, d < B) ds → Base58.of_base B ds < B ^ N.of_nat (length ds).
Proof.
  intros Hb. rewrite of_base_value, <- length_rev. by apply value_le_lt, Forall_rev.
Qed.

Lemma of_base_lower ds :
  ds ≠ [] → head ds ≠ Some 0 → B ^ N.of_nat (length ds - 1) ≤ Base58.of_base B ds.
Proof.
  intros Hne Hh. rewrite of_base_value, <- length_rev. apply value_le_lower.
  - intros Hnil. apply Hne. by rewrite <- (rev_involutive ds), Hnil.
  - by rewrite last_rev.
Qed.

Lemma of_base_app a b :
  Base58.of_base B (a ++ b) = Base58.of_base B a * B ^ N.of_nat (length b) + Base58.of_base B b.
Proof.
  rewrite !of_base_value, rev_app_distr, value_le_app, length_rev. lia.
Qed.

End positional.

(** ** SHA-256 on the vectors of its specification *)

Example sha256_empty :
  Hex.to_hex (Sha256.sha256 [])
  = "e3b0c44298fc1c149afbf4c8996fb92427ae41e4649b934ca495991b7852b855".
Proof. vm_compute. reflexivity. Qed.

Example sha256_abc :
  Hex.to_hex (Sha256.sha256 (String.list_byte_of_string "abc"))
  = "ba7816bf8f01cfea414140de5dae2223b00361a396177a9cb410ff61f20015ad".
Proof. vm_compute. reflexivity. Qed.

Example sha256_two_blocks :
  Hex.to_hex (Sha256.sha256 (String.list_byte_of_string
    "abcdbcdecdefdefgefghfghighijhijkijkljklmklmnlmnomnopnopq"))
  = "248d6a61d20638b8e5c026930c3e6039a33ce45964ff2167f6ecedd419db06c1".
Proof. vm_compute. reflexivity. Qed.

(** ** Base58 and Base58Check *)

Example bs58check_decode_example_xpub :
  Bs58check.decode example_xpub
  = inr (Hex.from_hex "0488b21e000000000000000000873dff81c02f525623fd1fe5167eac3a55a049de3d314bb42ee227ffed37d5080339a36013301597daef41fbe593a02cc513d0b55527ec2df1050e2e8ff49c85c2").
Proof. vm_compute. reflexivity. Qed.

Section base58.
Local Open Scope N_scope.

Lemma to_base_length B n k :
  2 ≤ B → B ^ N.of_nat k ≤ n → n < B ^ N.of_nat (S k) →
  length (Base58.to_base B n) = S k.
Proof.
  intros HB Hlo Hhi.
  pose proof (to_base_canonical B HB n) as [Hb Hh].
  pose proof (of_base_to_base B HB n) as Hv.
  pose proof (of_base_lt B HB _ Hb) as Hlt. rewrite Hv in Hlt.
  assert (Hne : Base58.to_base B n ≠ []).
  { intros Hnil. rewrite Hnil in Hv. cbn in Hv. subst n.
    assert (0 < B ^ N.of_nat k); [|lia]. apply N.neq_0_lt_0, N.pow_nonzero. lia. }
  pose proof (of_base_lower B HB _ Hne Hh) as Hge. rewrite Hv in Hge.
  assert (H1 : N.of_nat k < N.of_nat (length (Base58.to_base B n))).
  { apply (N.pow_lt_mono_r_iff B); lia. }
  assert (H2 : N.of_nat (length (Base58.to_base B n) - 1) < N.of_nat (S k)).
  { apply (N.pow_lt_mono_r_iff B); lia. }
  lia.
Qed.

Lemma char_digit_inv c d :
  Base58.char_digit c = Some d → d < 58 ∧ Base58.alphabet !! N.to_nat d = Some c.
Proof.
  unfold Base58.char_digit.
  intros ([i a] & Hfind & ->)%fmap_Some. apply list_find_Some in Hfind as (Hi & -> & _).
  cbn [fst]. rewrite Nat2N.id. split; [|done].
  apply lookup_lt_Some in Hi. change (length Base58.alphabet) with 58%nat in Hi. lia.
Qed.

Lemma char_digit_zero c : Base58.char_digit c = Some 0 → c = "1"%char.
Proof. intros [_ Hc]%char_digit_inv. vm_compute in Hc. by injection Hc. Qed.

Lemma N_lt_cases (n k : N) : n < k → n ∈ (N.of_nat <$> seq 0 (N.to_nat k)).
Proof.
  intros Hn. apply list_elem_of_fmap. exists (N.to_nat n). split; [lia|].
  apply elem_of_seq. lia.
Qed.

Lemma char_digit_digit_char d :
  d < 58 → Base58.char_digit (Base58.digit_char d) = Some d.
Proof.
  intros Hcases%N_lt_cases. vm_compute in Hcases.
  repeat (apply elem_of_cons in Hcases as [-> | Hcases]; [reflexivity|]).
  by apply elem_of_nil in Hcases.
Qed.

Lemma mapM_char_digit ds :
  Forall (λ d, d < 58) ds →
  mapM Base58.char_digit (Base58.digit_char <$> ds) = Some ds.
Proof.
  intros Hds. apply mapM_Some. apply Forall2_fmap_l, Forall_Forall2_diag.
  eapply Forall_impl; [done|]. by intros d ?%char_digit_digit_char.
Qed.

Lemma leading_zeros_split l :
  l = replicate (Base58.leading_zeros l) 0 ++ drop (Base58.leading_zeros l) l
  ∧ head (drop (Base58.leading_zeros l) l) ≠ Some 0.
Proof.
  induction l as [|x l [IH1 IH2]]; [done|].
  cbn [Base58.leading_zeros]. destruct (N.eqb_spec x 0) as [->|Hx].
  - cbn [replicate drop app]. split; [by rewrite <- IH1|done].
  - split; [done|]. cbn. congruence.
Qed.

Lemma leading_zeros_replicate z ds :
  head ds ≠ Some 0 → Base58.leading_zeros (replicate z 0 ++ ds) = z.
Proof.
  intros Hh. induction z as [|z IH]; cbn [replicate app Base58.leading_zeros].
  - destruct ds as [|d ds]; [done|]. cbn. destruct (N.eqb_spec d 0) as [->|]; [|done].
    by destruct Hh.
  - by rewrite IH.
Qed.

Lemma of_base_replicate_0 B z ds :
  Base58.of_base B (replicate z 0 ++ ds) = Base58.of_base B ds.
Proof.
  induction z as [|z IH]; [done|]. cbn [replicate app].
  unfold Base58.of_base in *. cbn [fold_left]. rewrite N.mul_0_l, N.add_0_l. apply IH.
Qed.

Lemma to_N_bytes_bounded (bs : list byte) : Forall (λ d, d < 256) (Byte.to_N <$> bs).
Proof.
  apply Forall_fmap, Forall_true. intros b. cbn.
  pose proof (Byte.to_N_bounded b). lia.
Qed.

Lemma byte_of_N_to_N (x : byte) : Hex.byte_of_N (Byte.to_N x) = x.
Proof. by destruct x. Qed.

Lemma decodeUnsafe_encode (source : list byte) :
  Base58.decodeUnsafe (Base58.encode source) = Some source.
Proof.
  unfold Base58.decodeUnsafe, Base58.encode.
  rewrite String.list_ascii_of_string_of_list_ascii.
  set (ns := Byte.to_N <$> source).
  set (n := Base58.of_base 256 ns).
  pose proof (to_base_canonical 58 ltac:(lia) n) as [Hb Hh].
  assert (HM : mapM Base58.char_digit
                 (replicate (Base58.leading_zeros ns) "1"%char
                  ++ (Base58.digit_char <$> Base58.to_base 58 n))
               = Some (replicate (Base58.leading_zeros ns) 0 ++ Base58.to_base 58 n)).
  { apply mapM_Some, Forall2_app.
    - apply Forall2_replicate. reflexivity.
    - by apply mapM_Some, mapM_char_digit. }
  rewrite HM. cbn [mbind option_bind].
  rewrite leading_zeros_replicate by done.
  rewrite of_base_replicate_0, of_base_to_base by lia.
  f_equal.
  destruct (leading_zeros_split ns) as [Hsplit Hhead].
  assert (Hn : n = Base58.of_base 256 (drop (Base58.leading_zeros ns) ns)).
  { unfold n. rewrite Hsplit at 1. apply of_base_replicate_0. }
  rewrite Hn, to_base_of_base; [|lia|].
  - transitivity (Hex.byte_of_N <$> ns).
    + replace (replicate (Base58.leading_zeros ns) x00)
        with (Hex.byte_of_N <$> replicate (Base58.leading_zeros ns) 0)
        by apply fmap_replicate.
      by rewrite <- fmap_app, <- Hsplit.
    + unfold ns. rewrite <- list_fmap_compose.
      rewrite <- (list_fmap_id source) at 2. apply list_fmap_ext.
      intros _ b _. apply byte_of_N_to_N.
  - split; [|done]. apply Forall_drop, to_N_bytes_bounded.
Qed.

Lemma be_bytes_length k n : length (Sha256.be_bytes k n) = k.
Proof.
  revert n. induction k as [|k IH]; intros n; [done|].
  cbn [Sha256.be_bytes]. rewrite length_app, IH. cbn. lia.
Qed.

Lemma sha256_length msg : length (Sha256.sha256 msg) = 32%nat.
Proof. unfold Sha256.sha256, Sha256.digest. by rewrite !length_app, !be_bytes_length. Qed.

Lemma checksum_length payload : length (take 4 (Bs58check.checksumFn payload)) = 4%nat.
Proof. rewrite length_take. unfold Bs58check.checksumFn. rewrite sha256_length. lia. Qed.

Lemma decodeRaw_checksum payload :
  Bs58check.decodeRaw (payload ++ take 4 (Bs58check.checksumFn payload)) = Some payload.
Proof.
  unfold Bs58check.decodeRaw.
  rewrite length_app, checksum_length.
  replace (length payload + 4 - 4)%nat with (length payload) by lia.
  rewrite take_app_length, drop_app_length.
  assert (Hsame : ∀ i, (i < 4)%nat →
    Hex.index_int (take 4 (Bs58check.checksumFn payload)) i
    = Hex.index_int (Bs58check.checksumFn payload) i).
  { intros i Hi. unfold Hex.index_int. by rewrite lookup_take_lt. }
  cbn [forallb]. rewrite !Hsame, !N.lxor_nilpotent by lia. done.
Qed.

Lemma bs58check_decode_encode payload :
  Bs58check.decode (Bs58check.encode payload) = inr payload.
Proof.
  unfold Bs58check.decode, Bs58check.encode.
  by rewrite decodeUnsafe_encode, decodeRaw_checksum.
Qed.

Lemma string_length_list s : String.length s = length (String.list_ascii_of_string s).
Proof. induction s as [|c s IH]; [done|]. cbn. by rewrite IH. Qed.

Lemma decodeRaw_length buffer payload :
  Bs58check.decodeRaw buffer = Some payload →
  payload = take (length buffer - 4) buffer.
Proof. unfold Bs58check.decodeRaw. case_match; congruence. Qed.

(** A string that does not start with ['1'] and decodes to 78 bytes has
    at least 111 characters. *)
Lemma bs58check_decode_78_length (s : string) (c : ascii) (rest : string) payload :
  s = String c rest → c ≠ "1"%char →
  Bs58check.decode s = inr payload → length payload = 78%nat →
  (111 ≤ String.length s)%nat.
Proof.
  intros Hs Hc Hdec Hlen. unfold Bs58check.decode in Hdec.
  destruct (Base58.decodeUnsafe s) as [buffer|] eqn:Hunsafe; [|done].
  destruct (Bs58check.decodeRaw buffer) as [payload'|] eqn:Hraw; [|done].
  injection Hdec as ->. apply decodeRaw_length in Hraw.
  assert (Hbuf : length buffer = 82%nat).
  { rewrite Hraw, length_take in Hlen. lia. }
  unfold Base58.decodeUnsafe in Hunsafe.
  destruct (mapM Base58.char_digit (String.list_ascii_of_string s)) as [ds|] eqn:HM;
    [|done].
  cbn [mbind option_bind] in Hunsafe. injection Hunsafe as Hbuffer.
  apply mapM_Some in HM.
  pose proof (Forall2_length _ _ _ HM) as Hlends.
  rewrite <- string_length_list in Hlends.
  rewrite Hs in HM. cbn [String.list_ascii_of_string] in HM.
  apply Forall2_cons_inv_l in HM as (d & ds' & Hd & Hds' & ->).
  assert (Hd0 : d ≠ 0) by (intros ->; by apply Hc, char_digit_zero).
  assert (Hbound : Forall (λ d, d < 58) (d :: ds')).
  { constructor; [by apply char_digit_inv in Hd as [? _]|].
    clear -Hds'. induction Hds' as [|? ? ? ? [? _]%char_digit_inv]; by constructor. }
  cbn [Base58.leading_zeros] in Hbuffer.
  destruct (N.eqb_spec d 0) as [|_]; [done|].
  cbn [replicate app] in Hbuffer.
  set (n := Base58.of_base 58 (d :: ds')) in *.
  assert (Hn : n < 58 ^ N.of_nat (String.length s)).
  { rewrite Hlends. by apply of_base_lt. }
  pose proof (to_base_canonical 256 ltac:(lia) n) as [_ Hhead].
  assert (Hlen256 : length (Base58.to_base 256 n) = 82%nat).
  { by rewrite <- Hbuf, <- Hbuffer, length_fmap. }
  pose proof (of_base_lower 256 ltac:(lia) (Base58.to_base 256 n)) as Hlow.
  rewrite of_base_to_base, Hlen256 in Hlow by lia.
  specialize (Hlow ltac:(by intros Hnil; rewrite Hnil in Hlen256) Hhead).
  destruct (decide (111 ≤ String.length s)%nat) as [|Hshort]; [done|exfalso].
  assert (Hpow : 58 ^ N.of_nat (String.length s) ≤ 58 ^ 110).
  { apply N.pow_le_mono_r; lia. }
  assert (Hcmp : 58 ^ 110 < 256 ^ N.of_nat (82 - 1)) by (by vm_compute).
  lia.
Qed.

Lemma take_to_base_58 (n D : N) (k : nat) :
  58 ^ 3 ≤ D → D < 58 ^ 4 →
  D * 58 ^ N.of_nat k ≤ n → n < (D + 1) * 58 ^ N.of_nat k →
  take 4 (Base58.to_base 58 n) = Base58.to_base 58 D.
Proof.
  intros HD3 HD4 Hlo Hhi.
  set (M := 58 ^ N.of_nat k) in *.
  assert (HM : 0 < M) by (apply N.neq_0_lt_0, N.pow_nonzero; lia).
  pose proof (to_base_canonical 58 ltac:(lia) n) as [Hb Hh].
  assert (Hlen : length (Base58.to_base 58 n) = S (3 + k)).
  { apply to_base_length; [lia|..].
    - rewrite Nat2N.inj_add, N.pow_add_r. fold M. change (N.of_nat 3) with 3. nia.
    - rewrite Nat2N.inj_succ, Nat2N.inj_add, N.pow_succ_r', N.pow_add_r. fold M.
      change (N.of_nat 3) with 3. nia. }
  pose proof (of_base_to_base 58 ltac:(lia) n) as Hv.
  rewrite <- (take_drop 4 (Base58.to_base 58 n)) in Hv.
  rewrite of_base_app in Hv by lia.
  rewrite length_drop, Hlen in Hv.
  replace (S (3 + k) - 4)%nat with k in Hv by lia. fold M in Hv.
  assert (Hr : Base58.of_base 58 (drop 4 (Base58.to_base 58 n)) < M).
  { unfold M. replace k with (length (drop 4 (Base58.to_base 58 n))) at 1
      by (rewrite length_drop; lia).
    apply of_base_lt; [lia|]. by apply Forall_drop. }
  assert (Hq : Base58.of_base 58 (take 4 (Base58.to_base 58 n)) = D) by nia.
  rewrite <- Hq. symmetry. apply to_base_of_base; [lia|]. split.
  - by apply Forall_take.
  - destruct (Base58.to_base 58 n); done.
Qed.

Lemma slice_0_4_list l :
  slice_0_4 (String.string_of_list_ascii l) = String.string_of_list_ascii (take 4 l).
Proof.
  unfold slice_0_4.
  destruct l as [|a [|b [|c [|d l]]]]; cbn; try done.
  by destruct l.
Qed.

Lemma encode_version_prefix (p v : string) (payload : list byte) :
  version_yields_prefix p v = true → length payload = 74%nat →
  slice_0_4 (Bs58check.encode (Hex.from_hex v ++ payload)) = p.
Proof.
  unfold version_yields_prefix.
  set (ver := Byte.to_N <$> Hex.from_hex v).
  set (V := Base58.of_base 256 ver).
  set (D := (V * 256 ^ 78) / 58 ^ 107).
  intros Hok Hlen.
  repeat (apply andb_prop in Hok as [Hok ?]).
  repeat match goal with
         | H : bool_decide _ = true |- _ => apply bool_decide_eq_true_1 in H
         | H : negb (bool_decide _) = true |- _ => apply negb_true_iff, bool_decide_eq_false_1 in H
         | H : (_ <=? _) = true |- _ => apply N.leb_le in H
         | H : (_ <? _) = true |- _ => apply N.ltb_lt in H
         end.
  set (tail := payload ++ take 4 (Bs58check.checksumFn (Hex.from_hex v ++ payload))).
  assert (Htail : length tail = 78%nat).
  { unfold tail. rewrite length_app, checksum_length. lia. }
  unfold Bs58check.encode. rewrite <- app_assoc. fold tail.
  unfold Base58.encode. rewrite fmap_app. fold ver.
  assert (Hz : Base58.leading_zeros (ver ++ (Byte.to_N <$> tail)) = 0%nat).
  { destruct ver as [|x ver']; [done|]. cbn [app Base58.leading_zeros].
    destruct (N.eqb_spec x 0) as [->|]; done. }
  rewrite Hz. cbn [replicate app].
  rewrite slice_0_4_list, <- fmap_take.
  set (n := Base58.of_base 256 (ver ++ (Byte.to_N <$> tail))).
  assert (Hn : n = V * 256 ^ 78 + Base58.of_base 256 (Byte.to_N <$> tail)).
  { unfold n. rewrite of_base_app by lia. by rewrite length_fmap, Htail. }
  assert (Hr : Base58.of_base 256 (Byte.to_N <$> tail) < 256 ^ 78).
  { change 78 with (N.of_nat 78). rewrite <- Htail, <- (length_fmap Byte.to_N).
    apply of_base_lt; [lia|]. apply to_N_bytes_bounded. }
  rewrite (take_to_base_58 n D 107); [done|done|done|..].
  - change (N.of_nat 107) with 107. lia.
  - change (N.of_nat 107) with 107. lia.
Qed.

Lemma versions_yield_prefixes :
  Forall (λ pv, version_yields_prefix pv.1 pv.2 = true)
    (filter (λ pv, pv.1 ≠ "zpub") extendedPublicKeyVersions).
Proof. apply (bool_decide_unpack _). by vm_compute. Qed.

End base58.

(** ** Hexadecimal buffers and key compression *)

Lemma to_hex_length (b : Hex.Buffer) : String.length (Hex.to_hex b) = 2 * length b.
Proof. induction b as [|x b IH]; simpl; [done|]. rewrite IH. lia. Qed.

Lemma hex_digit_value (n : N) :
  (n < 16)%N → Hex.hex_value (Hex.hex_digit n) = Some n.
Proof.
  intros Hn.
  assert (Hcases : n ∈ (N.of_nat <$> seq 0 16)).
  { apply list_elem_of_fmap. exists (N.to_nat n). split; [lia|].
    apply elem_of_seq. lia. }
  vm_compute in Hcases.
  repeat (apply elem_of_cons in Hcases as [-> | Hcases]; [reflexivity|]).
  by apply elem_of_nil in Hcases.
Qed.

Lemma from_hex_to_hex (b : Hex.Buffer) : Hex.from_hex (Hex.to_hex b) = b.
Proof.
  induction b as [|x b IH]; [done|].
  cbn [Hex.to_hex Hex.from_hex].
  pose proof (Byte.to_N_bounded x) as Hx.
  rewrite !hex_digit_value by (try apply N.mod_lt; try apply N.Div0.div_lt_upper_bound; lia).
  rewrite IH. f_equal.
  rewrite <- (N.div_mod' (Byte.to_N x) 16). apply byte_of_N_to_N.
Qed.

Lemma land_1_odd (y : byte) :
  negb (N.land (Byte.to_N y) 1 =? 0)%N = N.odd (Byte.to_N y).
Proof. by destruct y. Qed.

(** Claim C5. For a hex string that decodes to a 65-byte key,
    [compressPublicKey] returns the hex of 33 bytes: [02] when the low bit
    of byte 64 (the low bit of the Y coordinate) is 0 and [03] when it is
    1, followed by bytes 1 to 32 of the input (the X coordinate). *)
Theorem compressPublicKey_spec (publicKey : string) (key : Hex.Buffer) (y : byte) :
  Hex.from_hex publicKey = key →
  length key = 65 →
  key !! 64 = Some y →
  compressPublicKey publicKey
    = Hex.to_hex ((if N.odd (Byte.to_N y) then x03 else x02) :: take 32 (drop 1 key))
  ∧ String.length (compressPublicKey publicKey) = 66.
Proof.
  intros Hkey Hlen Hy.
  assert (Heq : compressPublicKey publicKey
    = Hex.to_hex ((if N.odd (Byte.to_N y) then x03 else x02) :: take 32 (drop 1 key))).
  { unfold compressPublicKey, Hex.index_int, Hex.slice. rewrite Hkey, Hy, land_1_odd.
    by destruct (N.odd (Byte.to_N y)). }
  split; [done|].
  rewrite Heq, to_hex_length. cbn [length].
  rewrite length_take, length_drop. lia.
Qed.

(** ** keys.js: prefixes and trimming *)

Lemma validatePrefix_None prefix prefixType :
  validatePrefix prefix prefixType = None ↔ known_prefix prefix.
Proof.
  unfold validatePrefix, indexOf, known_prefix.
  destruct (list_find _ _) as [[i y]|] eqn:Hfind; cbn.
  - apply list_find_Some in Hfind as (Hi & -> & _).
    split; [intros _|done]. by eapply list_elem_of_lookup_2.
  - split; [done|]. intros Hin. exfalso.
    eapply list_find_None in Hfind. rewrite Forall_forall in Hfind.
    by apply (Hfind prefix Hin).
Qed.

Lemma validatePrefix_Some prefix prefixType msg :
  validatePrefix prefix prefixType = Some msg →
  msg = "Invalid " +:+ prefixType +:+ " version for extended public key conversion".
Proof. unfold validatePrefix. case_match; congruence. Qed.

Lemma Object_get_known prefix :
  known_prefix prefix →
  ∃ v, Object_get extendedPublicKeyVersions prefix = Some v
       ∧ (prefix, v) ∈ extendedPublicKeyVersions.
Proof.
  unfold known_prefix. intros Hin. vm_compute in Hin.
  repeat (apply elem_of_cons in Hin as [-> | Hin];
          [eexists; split; [reflexivity|]; vm_compute; set_solver|]).
  by apply elem_of_nil in Hin.
Qed.

Lemma trimEnd_no_whitespace s :
  Forall (λ c, is_whitespace c = false) (String.list_ascii_of_string s) →
  trimEnd s = s.
Proof.
  induction s as [|c s IH]; [done|]. cbn [String.list_ascii_of_string trimEnd].
  intros [Hc Hs]%Forall_cons. rewrite IH by done. rewrite Hc. by destruct s.
Qed.

Lemma trim_no_whitespace s :
  Forall (λ c, is_whitespace c = false) (String.list_ascii_of_string s) →
  trim s = s.
Proof.
  intros Hs. unfold trim.
  assert (trimStart s = s) as ->; [|by apply trimEnd_no_whitespace].
  destruct s as [|c s]; [done|]. cbn in *. apply Forall_cons in Hs as [-> _]. done.
Qed.

Lemma digit_char_not_whitespace d : is_whitespace (Base58.digit_char d) = false.
Proof.
  unfold Base58.digit_char.
  destruct (Base58.alphabet !! N.to_nat d) as [c|] eqn:Hc; [|done]. cbn.
  apply list_elem_of_lookup_2 in Hc. revert c Hc. apply Forall_forall.
  apply (bool_decide_unpack _). by vm_compute.
Qed.

Lemma trim_base58_encode source : trim (Base58.encode source) = Base58.encode source.
Proof.
  apply trim_no_whitespace. unfold Base58.encode.
  rewrite String.list_ascii_of_string_of_list_ascii. apply Forall_app. split.
  - by apply Forall_replicate.
  - apply Forall_fmap, Forall_true. intros d. apply digit_char_not_whitespace.
Qed.

(** ** keys.js: conversion *)

(** What a conversion does once both prefixes are known: it succeeds
    exactly when the trimmed key decodes. *)
Lemma extendedPublicKeyConvert_known key targetPrefix v :
  known_prefix targetPrefix → known_prefix (slice_0_4 key) →
  Object_get extendedPublicKeyVersions targetPrefix = Some v →
  extendedPublicKeyConvert key targetPrefix
  = match Bs58check.decode (trim key) with
    | inl err_message =>
        {| extendedPublicKey := key; message := None;
           error := "Unable to convert extended public key: " +:+ err_message |}
    | inr decoded =>
        {| extendedPublicKey := Bs58check.encode (Hex.from_hex v ++ drop 4 decoded);
           message := Some ("Your extended public key has been converted from "
                            +:+ slice_0_4 key +:+ " to " +:+ targetPrefix);
           error := "" |}
    end.
Proof.
  intros Ht Hs Hv. unfold extendedPublicKeyConvert.
  apply (validatePrefix_None _ "target") in Ht. apply (validatePrefix_None _ "source") in Hs.
  rewrite Ht, Hs, Hv. by destruct (Bs58check.decode (trim key)).
Qed.

Lemma extendedPublicKeyConvert_invariant key targetPrefix :
  conversion_invariant key (extendedPublicKeyConvert key targetPrefix).
Proof.
  unfold conversion_invariant, carries_message, carries_error, extendedPublicKeyConvert.
  repeat case_match; cbn; split; try done; try (by intros [(m & [=] & _) _]).
  all: by intros [_ []].
Qed.

(** Claim C3. Every result of [extendedPublicKeyConvert] and of
    [convertAndValidateExtendedPublicKey] satisfies the invariant of a
    conversion result: it never carries both a non-empty message and a
    non-empty error, and when it carries a non-empty error its key is the
    input key. *)
Theorem conversion_results_invariant `{Bip32} (key prefix : string) (network : Network) :
  conversion_invariant key (extendedPublicKeyConvert key prefix)
  ∧ conversion_invariant key (convertAndValidateExtendedPublicKey key network).
Proof.
  split; [apply extendedPublicKeyConvert_invariant|].
  pose proof (extendedPublicKeyConvert_invariant key
                (if decide (network = TESTNET) then "tpub" else "xpub")) as Hconv.
  assert (Herr : ∀ e, conversion_invariant key
                        {| extendedPublicKey := key; message := None; error := e |}).
  { intros e. split; [|done]. by intros [(m & [=] & _) _]. }
  unfold convertAndValidateExtendedPublicKey.
  repeat case_match; try apply Herr; try apply Hconv.
  all: split; cbn; [by intros [_ []]|done].
Qed.

(** ** keys.js: validation *)

Lemma networkValidation_empty key network :
  extendedPublicKeyNetworkValidateion key network = ""
  ↔ canonical_prefix network (slice_0_4 key).
Proof.
  unfold extendedPublicKeyNetworkValidateion, canonical_prefix.
  destruct (bool_decide_reflect (slice_0_4 key = "xpub")) as [->|Hx];
    destruct network; cbn; try (split; [intros _; by left|done]).
  - split; [done|]. by intros [?|[? _]].
  - destruct (bool_decide_reflect (slice_0_4 key = "tpub")) as [->|Ht]; cbn.
    + split; [intros _; by right|done].
    + split; [done|]. by intros [?|[_ ?]].
Qed.

Lemma networkValidation_message key network :
  ¬ canonical_prefix network (slice_0_4 key) →
  extendedPublicKeyNetworkValidateion key network
  = match network with
    | MAINNET => "Extended public key must begin with 'xpub'."
    | TESTNET => "Extended public key must begin with 'xpub' or 'tpub'."
    end.
Proof.
  intros Hnc. unfold extendedPublicKeyNetworkValidateion, canonical_prefix in *.
  destruct (bool_decide_reflect (slice_0_4 key = "xpub")) as [Hx|Hx]; [by destruct Hnc; left|].
  destruct network; cbn; [done|].
  destruct (bool_decide_reflect (slice_0_4 key = "tpub")) as [Ht|Ht]; [|done].
  destruct Hnc. by right.
Qed.

Lemma preValidation_empty key network :
  preExtendedPublicKeyValidation key network = "" ↔ key ≠ "" ∧ 111 ≤ String.length key.
Proof.
  unfold preExtendedPublicKeyValidation.
  destruct (bool_decide_reflect (key = "")) as [->|Hne].
  { split; [done|]. by intros [[] _]. }
  destruct (Nat.ltb_spec (String.length key) 111); [|done].
  split; [done|]. intros [_ ?]. lia.
Qed.

Lemma canonical_prefix_first key network :
  canonical_prefix network (slice_0_4 key) →
  ∃ c rest, key = String c rest ∧ c ≠ "1"%char.
Proof.
  unfold slice_0_4. destruct key as [|c rest]; [intros [Hc|[_ Hc]]; discriminate Hc|].
  intros Hc. exists c, rest. split; [done|]. intros ->.
  cbn in Hc. destruct Hc as [Hc|[_ Hc]]; congruence.
Qed.

Lemma bip32_accepts_length `{Bip32Serialization} key network :
  canonical_prefix network (slice_0_4 key) →
  bip32_fromBase58 key network = None → 111 ≤ String.length key.
Proof.
  intros (c & rest & Hkey & Hc)%canonical_prefix_first Hok.
  destruct (bip32_decodes key network Hok) as (buffer & Hdec & Hlen).
  by eapply bs58check_decode_78_length.
Qed.

(** Claim C2. [validateExtendedPublicKey] returns the empty string exactly
    when the prefix of the key is canonical for the network and the key
    deserializes under the parameters of the network; otherwise it returns
    a non-empty message, chosen in the order blank, too short, wrong
    prefix, structurally invalid: an earlier condition decides the message
    whatever the later ones are. *)
Theorem validateExtendedPublicKey_spec `{Bip32Serialization}
  (key : string) (network : Network) :
  (validateExtendedPublicKey key network = ""
   ↔ canonical_prefix network (slice_0_4 key) ∧ bip32_fromBase58 key network = None)
  ∧ (key = "" →
     validateExtendedPublicKey key network = "Extended public key cannot be blank.")
  ∧ (key ≠ "" → String.length key < 111 →
     validateExtendedPublicKey key network = "Extended public key length is too short.")
  ∧ (key ≠ "" → 111 ≤ String.length key → ¬ canonical_prefix network (slice_0_4 key) →
     validateExtendedPublicKey key network
     = match network with
       | MAINNET => "Extended public key must begin with 'xpub'."
       | TESTNET => "Extended public key must begin with 'xpub' or 'tpub'."
       end)
  ∧ (key ≠ "" → 111 ≤ String.length key → canonical_prefix network (slice_0_4 key) →
     ∀ e, bip32_fromBase58 key network = Some e →
     validateExtendedPublicKey key network = "Invalid extended public key: " +:+ e).
Proof.
  assert (Hblank : key = "" →
    validateExtendedPublicKey key network = "Extended public key cannot be blank.").
  { intros ->. reflexivity. }
  assert (Hshort : key ≠ "" → String.length key < 111 →
    validateExtendedPublicKey key network = "Extended public key length is too short.").
  { intros Hne Hlt. unfold validateExtendedPublicKey, preExtendedPublicKeyValidation.
    rewrite (bool_decide_eq_false_2 (key = "")) by done.
    destruct (Nat.ltb_spec (String.length key) 111); [done|lia]. }
  assert (Hpre : key ≠ "" → 111 ≤ String.length key →
    validateExtendedPublicKey key network
    = if negb (bool_decide (extendedPublicKeyNetworkValidateion key network = ""))
      then extendedPublicKeyNetworkValidateion key network
      else match bip32_fromBase58 key network with
           | Some e => "Invalid extended public key: " +:+ e
           | None => ""
           end).
  { intros Hne Hlen. unfold validateExtendedPublicKey.
    by rewrite (proj2 (preValidation_empty key network)). }
  assert (Hprefix : key ≠ "" → 111 ≤ String.length key →
    ¬ canonical_prefix network (slice_0_4 key) →
    validateExtendedPublicKey key network
    = match network with
      | MAINNET => "Extended public key must begin with 'xpub'."
      | TESTNET => "Extended public key must begin with 'xpub' or 'tpub'."
      end).
  { intros Hne Hlen Hnc. rewrite Hpre, networkValidation_message by done.
    by destruct network. }
  assert (Hstruct : key ≠ "" → 111 ≤ String.length key →
    canonical_prefix network (slice_0_4 key) →
    validateExtendedPublicKey key network
    = match bip32_fromBase58 key network with
      | Some e => "Invalid extended public key: " +:+ e
      | None => ""
      end).
  { intros Hne Hlen Hc. rewrite Hpre by done.
    by rewrite (proj2 (networkValidation_empty key network) Hc). }
  split_and!; [|done..|by intros ??? e He; rewrite Hstruct, He].
  split.
  - intros Hempty.
    destruct (decide (key = "")) as [Hk|Hk]; [by rewrite Hblank in Hempty|].
    destruct (decide (String.length key < 111)); [by rewrite Hshort in Hempty|].
    destruct (decide (canonical_prefix network (slice_0_4 key))) as [Hc|Hc].
    + split; [done|]. rewrite Hstruct in Hempty by (done || lia).
      by destruct (bip32_fromBase58 key network).
    + rewrite Hprefix in Hempty by (done || lia). by destruct network.
  - intros [Hc Hok].
    pose proof (bip32_accepts_length key network Hc Hok) as Hlen.
    rewrite Hstruct, Hok; [done| |done..].
    intros ->. cbn in Hlen. lia.
Qed.

(** Claim C6. A key that is already canonical for its network (accepted
    prefix, valid under the parameters of the network, at least 111
    characters) comes back unchanged, with an empty message and an empty
    error. *)
Theorem convertAndValidate_canonical `{Bip32} (key : string) (network : Network) :
  111 ≤ String.length key →
  canonical_prefix network (slice_0_4 key) →
  bip32_fromBase58 key network = None →
  convertAndValidateExtendedPublicKey key network
  = {| extendedPublicKey := key; message := Some ""; error := "" |}.
Proof.
  intros Hlen Hc Hok.
  assert (Hne : key ≠ "") by (intros ->; cbn in Hlen; lia).
  unfold convertAndValidateExtendedPublicKey, validateExtendedPublicKey.
  rewrite (proj2 (preValidation_empty key network)) by done.
  rewrite (proj2 (networkValidation_empty key network)) by done.
  by rewrite Hok.
Qed.

(** Claim C7. When the conversion step is reached, the conversion changes
    the string and the converted key fails validation, the result carries
    the original key and the validation error of the converted key. *)
Theorem convertAndValidate_reports_original `{Bip32} (key : string) (network : Network) :
  let targetPrefix := if decide (network = TESTNET) then "tpub" else "xpub" in
  let converted := extendedPublicKey (extendedPublicKeyConvert key targetPrefix) in
  preExtendedPublicKeyValidation key network = "" →
  validateExtendedPublicKey key network ≠ "" →
  converted ≠ key →
  validateExtendedPublicKey converted network ≠ "" →
  convertAndValidateExtendedPublicKey key network
  = {| extendedPublicKey := key; message := None;
       error := validateExtendedPublicKey converted network |}.
Proof.
  intros targetPrefix converted Hpre Hinvalid Hchanged Hfails.
  assert (Hstep :
    (if negb (bool_decide (converted = key)) then
       if bool_decide (validateExtendedPublicKey converted network = "")
       then extendedPublicKeyConvert key targetPrefix
       else {| extendedPublicKey := key; message := None;
               error := validateExtendedPublicKey converted network |}
     else extendedPublicKeyConvert key targetPrefix)
    = {| extendedPublicKey := key; message := None;
         error := validateExtendedPublicKey converted network |}).
  { by rewrite !bool_decide_eq_false_2. }
  unfold convertAndValidateExtendedPublicKey. fold targetPrefix. fold converted.
  rewrite Hpre. cbn [bool_decide negb].
  rewrite bool_decide_eq_true_2 by done. cbn [negb].
  destruct (bool_decide (extendedPublicKeyNetworkValidateion key network = ""));
    [|exact Hstep].
  by rewrite (bool_decide_eq_false_2 _ Hinvalid).
Qed.

(** ** keys.js: the untrimmed source prefix *)

Lemma known_prefix_not_whitespace c rest :
  known_prefix (slice_0_4 (String c rest)) → is_whitespace c = false.
Proof.
  unfold known_prefix. intros Hin.
  destruct rest as [|c2 [|c3 [|c4 rest]]]; vm_compute in Hin;
    repeat (apply elem_of_cons in Hin as [Heq | Hin]; [by simplify_eq|]);
    by apply elem_of_nil in Hin.
Qed.

(** Claim C10, as stated, fails when the target prefix is unknown: the
    target is checked first. *)
Lemma convert_leading_whitespace_counterexample :
  ¬ (∀ key targetPrefix c rest,
       key = String c rest → is_whitespace c = true →
       extendedPublicKeyConvert key targetPrefix
       = {| extendedPublicKey := key; message := None;
            error := "Invalid source version for extended public key conversion" |}).
Proof.
  intros Hclaim.
  specialize (Hclaim (" " +:+ example_xpub) "apub" " "%char example_xpub eq_refl eq_refl).
  vm_compute in Hclaim. discriminate Hclaim.
Qed.

(** Claim C10, amended. For a known target prefix, a key that starts with
    whitespace is refused with the source-version error and comes back
    unchanged, because the source prefix is read from the untrimmed key;
    a key without whitespace is left as it is by the trim that precedes
    the decoding. *)
Theorem convert_leading_whitespace (key targetPrefix : string) :
  known_prefix targetPrefix →
  (∀ c rest, key = String c rest → is_whitespace c = true →
     extendedPublicKeyConvert key targetPrefix
     = {| extendedPublicKey := key; message := None;
          error := "Invalid source version for extended public key conversion" |})
  ∧ (Forall (λ c, is_whitespace c = false) (String.list_ascii_of_string key) →
     trim key = key).
Proof.
  intros Ht. split; [|apply trim_no_whitespace].
  intros c rest -> Hc. unfold extendedPublicKeyConvert.
  rewrite (proj2 (validatePrefix_None targetPrefix "target") Ht).
  destruct (validatePrefix (slice_0_4 (String c rest)) "source") as [msg|] eqn:Hsrc.
  - by apply validatePrefix_Some in Hsrc as ->.
  - apply validatePrefix_None, known_prefix_not_whitespace in Hsrc. congruence.
Qed.

(** ** keys.js: round trips through an intermediate prefix *)

Lemma version_of_known P :
  known_prefix P → P ≠ "zpub" →
  ∃ v, Object_get extendedPublicKeyVersions P = Some v
       ∧ version_yields_prefix P v = true.
Proof.
  intros (v & Hget & Hin)%Object_get_known Hz. exists v. split; [done|].
  pose proof versions_yield_prefixes as Hall. rewrite Forall_forall in Hall.
  apply (Hall (P, v)). by apply list_elem_of_filter.
Qed.

Lemma version_length p v : version_yields_prefix p v = true → length (Hex.from_hex v) = 4.
Proof.
  unfold version_yields_prefix. intros Hok.
  repeat (apply andb_prop in Hok as [Hok _]).
  apply bool_decide_eq_true_1 in Hok. by rewrite length_fmap in Hok.
Qed.

(** Converting through an intermediate prefix other than [zpub] gives the
    same key as converting directly. *)
Theorem convert_round_trip (key P Q : string) (decoded : Hex.Buffer) :
  known_prefix (slice_0_4 key) →
  Bs58check.decode (trim key) = inr decoded →
  length decoded = 78 →
  known_prefix P → P ≠ "zpub" → known_prefix Q →
  extendedPublicKey
    (extendedPublicKeyConvert (extendedPublicKey (extendedPublicKeyConvert key P)) Q)
  = extendedPublicKey (extendedPublicKeyConvert key Q).
Proof.
  intros Hsrc Hdec Hlen HP HPz HQ.
  destruct (version_of_known P HP HPz) as (vP & HgetP & HokP).
  destruct (Object_get_known Q HQ) as (vQ & HgetQ & _).
  rewrite (extendedPublicKeyConvert_known key P vP), Hdec by done.
  rewrite (extendedPublicKeyConvert_known key Q vQ), Hdec by done.
  cbn [extendedPublicKey].
  assert (Hprefix : slice_0_4 (Bs58check.encode (Hex.from_hex vP ++ drop 4 decoded)) = P).
  { apply encode_version_prefix; [done|]. rewrite length_drop. lia. }
  rewrite (extendedPublicKeyConvert_known _ Q vQ) by (by rewrite ?Hprefix).
  unfold Bs58check.encode at 1. rewrite trim_base58_encode.
  fold (Bs58check.encode (Hex.from_hex vP ++ drop 4 decoded)).
  rewrite bs58check_decode_encode. cbn [extendedPublicKey].
  by rewrite drop_app_length' by (symmetry; by eapply version_length).
Qed.

(** Claim C4 at the prefix [zpub]: the table gives it the version bytes
    under which keys are written [zprv...], so the intermediate key has no
    known prefix and the second conversion refuses it. *)
Theorem convert_round_trip_zpub :
  let intermediate := extendedPublicKey (extendedPublicKeyConvert example_xpub "zpub") in
  slice_0_4 intermediate = "zprv"
  ∧ extendedPublicKeyConvert intermediate "xpub"
    = {| extendedPublicKey := intermediate; message := None;
         error := "Invalid source version for extended public key conversion" |}
  ∧ extendedPublicKey (extendedPublicKeyConvert example_xpub "xpub") = example_xpub
  ∧ extendedPublicKey (extendedPublicKeyConvert intermediate "xpub")
    ≠ extendedPublicKey (extendedPublicKeyConvert example_xpub "xpub").
Proof. vm_compute. split_and!; try reflexivity. discriminate. Qed.

(** ** Examples on the reference instance *)

#[global] Instance bip32_serialization_checks_decodes :
  @Bip32Serialization bip32_serialization_checks.
Proof.
  intros s network. unfold bip32_fromBase58, bip32_serialization_checks.
  destruct (Bs58check.decode s) as [msg|buffer]; [done|].
  destruct (Nat.eqb_spec (length buffer) 78) as [Hlen|]; [|done].
  intros _. by exists buffer.
Qed.

Lemma validateExtendedPublicKey_spec_witness :
  @validateExtendedPublicKey bip32_serialization_checks example_xpub MAINNET = "".
Proof.
  apply (proj1 (@validateExtendedPublicKey_spec bip32_serialization_checks
                  bip32_serialization_checks_decodes example_xpub MAINNET)).
  split; [left; reflexivity|vm_compute; reflexivity].
Defined.

Lemma convertAndValidate_canonical_witness :
  @convertAndValidateExtendedPublicKey bip32_serialization_checks example_xpub MAINNET
  = {| extendedPublicKey := example_xpub; message := Some ""; error := "" |}.
Proof.
  apply (@convertAndValidate_canonical bip32_serialization_checks example_xpub MAINNET).
  - vm_compute. lia.
  - left. reflexivity.
  - vm_compute. reflexivity.
Defined.

Lemma convertAndValidate_reports_original_witness :
  @convertAndValidateExtendedPublicKey bip32_serialization_checks example_bad_ypub MAINNET
  = {| extendedPublicKey := example_bad_ypub; message := None;
       error := "Invalid extended public key: TypeError: Invalid parent fingerprint" |}.
Proof.
  etrans.
  - apply (@convertAndValidate_reports_original bip32_serialization_checks
             example_bad_ypub MAINNET).
    + vm_compute. reflexivity.
    + vm_compute. discriminate.
    + vm_compute. discriminate.
    + vm_compute. discriminate.
  - vm_compute. reflexivity.
Defined.

Lemma convert_leading_whitespace_witness :
  extendedPublicKeyConvert (" " +:+ example_xpub) "tpub"
  = {| extendedPublicKey := " " +:+ example_xpub; message := None;
       error := "Invalid source version for extended public key conversion" |}
  ∧ error (extendedPublicKeyConvert example_xpub "tpub") = "".
Proof.
  split; [|vm_compute; reflexivity].
  eapply (proj1 (convert_leading_whitespace (" " +:+ example_xpub) "tpub" _));
    reflexivity.
  Unshelve. vm_compute. set_solver.
Defined.

Lemma convert_round_trip_witness :
  extendedPublicKey
    (extendedPublicKeyConvert
       (extendedPublicKey (extendedPublicKeyConvert example_xpub "Vpub")) "tpub")
  = extendedPublicKey (extendedPublicKeyConvert example_xpub "tpub").
Proof.
  eapply (convert_round_trip example_xpub "Vpub" "tpub").
  - vm_compute. set_solver.
  - vm_compute. reflexivity.
  - reflexivity.
  - vm_compute. set_solver.
  - discriminate.
  - vm_compute. set_solver.
Defined.

Lemma compressPublicKey_spec_witness :
  compressPublicKey "04b32dc780fba98db25b4b72cf2b69da228f5e10ca6aa8f46eabe7f9fe22c994ee6e43c09d025c2ad322382347ec0f69b4e78d8e23c8ff9aa0dd0cb93665ae83d5"
  = "03b32dc780fba98db25b4b72cf2b69da228f5e10ca6aa8f46eabe7f9fe22c994ee".
Proof.
  etrans.
  - eapply proj1, (compressPublicKey_spec _ _ "213"%byte); [reflexivity..].
  - vm_compute. reflexivity.
Defined.

(** ** The scenarios of the test suite of keys.js *)

Section keys_test_suite.
#[local] Existing Instance bip32_serialization_checks.

Example blank_key : validateExtendedPublicKey "" MAINNET = "Extended public key cannot be blank.".
Proof. reflexivity. Qed.

Example improper_prefix_mainnet :
  validateExtendedPublicKey example_apub MAINNET = "Extended public key must begin with 'xpub'.".
Proof. vm_compute. reflexivity. Qed.

Example improper_prefix_testnet :
  validateExtendedPublicKey example_apub TESTNET
  = "Extended public key must begin with 'xpub' or 'tpub'.".
Proof. vm_compute. reflexivity. Qed.

Example insufficient_length :
  validateExtendedPublicKey "xpub" MAINNET = "Extended public key length is too short.".
Proof. vm_compute. reflexivity. Qed.

Example invalid_xpub :
  validateExtendedPublicKey
    ("xpub6CCHV1Yn5VzKSmKD9cK9LBDPz9wBLV7owXJcNDioETNvhqhVtj3ABnVUERN9aV1RGTX9YpyP"
     +:+ "HnC4Ekzjnr7TZthsJRBiXA4QCeXNHEwxLab") MAINNET
  = "Invalid extended public key: Error: Invalid checksum".
Proof. vm_compute. reflexivity. Qed.

Example valid_xpub :
  validateExtendedPublicKey
    ("xpub6CCHViYn5VzKSmKD9cK9LBDPz9wBLV7owXJcNDioETNvhqhVtj3ABnVUERN9aV1RGTX9YpyP"
     +:+ "HnC4Ekzjnr7TZthsJRBiXA4QCeXNHEwxLab") MAINNET
  = "".
Proof. vm_compute. reflexivity. Qed.

Example invalid_target_format :
  extendedPublicKeyConvert example_xpub "apub"
  = {| extendedPublicKey := example_xpub; message := None;
       error := "Invalid target version for extended public key conversion" |}.
Proof. vm_compute. reflexivity. Qed.

Example invalid_source_format :
  let bad := "a" +:+ String.substring 1 110 example_xpub in
  convertAndValidateExtendedPublicKey bad MAINNET
  = {| extendedPublicKey := bad; message := None;
       error := "Invalid source version for extended public key conversion" |}.
Proof. vm_compute. reflexivity. Qed.

Example invalid_key_passes_through :
  let bad := String.substring 0 109 example_xpub +:+ "xx" in
  convertAndValidateExtendedPublicKey bad MAINNET
  = {| extendedPublicKey := bad; message := None;
       error := "Unable to convert extended public key: Invalid checksum" |}.
Proof. vm_compute. reflexivity. Qed.

Example converted_for_testnet :
  convertAndValidateExtendedPublicKey example_xpub TESTNET
  = {| extendedPublicKey :=
         "tpubD6NzVbkrYhZ4XgiXtGrdW5XDAPFCL9h7we1vwNCpn8tGbBcgfVYjXyhWo4E1xkh56hjod1RhG"
         +:+ "jxbaTLV3X4FyWuejifB9jusQ46QzG87VKp";
       message := Some "Your extended public key has been converted from xpub to tpub";
       error := "" |}.
Proof. vm_compute. reflexivity. Qed.

End keys_test_suite.

(** ** The transaction module *)

Section transactions_properties.
Context `{Collaborators}.
Variables (network : Network) (inputs : list MultisigTransactionInput)
  (outputs : list TransactionOutput).

(** Within this section the call is fixed, and the lemmas write the
    functions without its arguments. *)
Local Abbreviation key_of := (resolved_key network inputs outputs).
Local Abbreviation by_public_key := (signaturesByPublicKey network inputs outputs).
Local Abbreviation sign_input := (signInput network inputs outputs).
Local Abbreviation sign_inputs := (signInputs network inputs outputs).
Local Abbreviation accepted := (input_accepted network inputs outputs).
Local Abbreviation well_formed := (well_formed_call network inputs outputs).
Local Abbreviation valid := (valid_signatures network inputs outputs).
Local Abbreviation signed := (signedMultisigTransaction network inputs outputs).
Local Abbreviation key_order := (in_key_order network inputs outputs).

Lemma truthy_true s : truthy s = true ↔ s ≠ "".
Proof. unfold truthy. by rewrite negb_true_iff, bool_decide_eq_false. Qed.

Lemma collectInputSignatures_truthy rows i :
  Forall (λ s, s ≠ "") (collectInputSignatures rows i).
Proof.
  apply Forall_forall. intros s (e & _ & He)%list_elem_of_omap.
  destruct e as [s'|]; [|done]. cbn in He.
  destruct (truthy s') eqn:Hs'; [|done]. injection He as ->. by apply truthy_true.
Qed.

Lemma collectInputSignatures_Permutation rows rows' i :
  rows ≡ₚ rows' → collectInputSignatures rows i ≡ₚ collectInputSignatures rows' i.
Proof. intros Hp. unfold collectInputSignatures. by rewrite Hp. Qed.

Lemma Boolean_lookup (m : gmap string string) k :
  truthy_values m → Boolean (m !! k) = true ↔ is_Some (m !! k).
Proof.
  intros Hm. destruct (m !! k) as [v|] eqn:Hk; cbn.
  - rewrite truthy_true. split; [by eauto|]. intros _. by eapply Hm.
  - split; [done|]. by intros [? ?].
Qed.

Lemma truthy_values_insert m k v :
  truthy_values m → v ≠ "" → truthy_values (<[k:=v]> m).
Proof.
  intros Hm Hv k' v'. rewrite lookup_insert. case_decide; [congruence|apply Hm].
Qed.

(** One step of the loop, for a candidate that resolves to a key. *)
Lemma signaturesByPublicKey_cons i s rest m pk :
  key_of i s = Some pk →
  by_public_key i (s :: rest) m
  = if Boolean (m !! pk) then
      Err ("Duplicate signature for input " +:+ pretty (i + 1) +:+ ": " +:+ s)
    else by_public_key i rest (<[pk:=s]> m).
Proof.
  unfold resolved_key. cbn [signaturesByPublicKey].
  destruct (validateMultisigSignature network inputs outputs i s) as [e|[pk'|]]; [done| |done].
  destruct (truthy pk') eqn:Hpk; [|done]. by intros [= ->].
Qed.

Lemma signaturesByPublicKey_unresolved i s rest m :
  key_of i s = None →
  ∃ msg, by_public_key i (s :: rest) m = Err msg.
Proof.
  unfold resolved_key. cbn [signaturesByPublicKey].
  destruct (validateMultisigSignature network inputs outputs i s) as [e|[pk'|]];
    [by eauto| |by eauto].
  destruct (truthy pk'); [done|by eauto].
Qed.

(** What a successful run of the loop says about the candidates and
    about the object it has filled. *)
Lemma signaturesByPublicKey_Ok i cands m0 m :
  Forall (λ s, s ≠ "") cands → truthy_values m0 →
  by_public_key i cands m0 = Ok m →
  Forall (λ s, is_Some (key_of i s)) cands
  ∧ NoDup (omap (key_of i) cands)
  ∧ (∀ k, k ∈ omap (key_of i) cands → m0 !! k = None)
  ∧ (∀ k s, m !! k = Some s ↔
            m0 !! k = Some s ∨ (s ∈ cands ∧ key_of i s = Some k)).
Proof.
  intros Hcands. revert m0.
  induction Hcands as [|s rest Hs Hrest IH]; intros m0 Hm0 Hrun.
  { injection Hrun as ->. split_and!; [constructor|constructor|by intros ? ?%elem_of_nil|].
    intros k s. split; [by left|]. intros [?|[?%elem_of_nil _]]; done. }
  destruct (key_of i s) as [pk|] eqn:Hpk;
    [|by destruct (signaturesByPublicKey_unresolved i s rest m0 Hpk) as [? ?]; congruence].
  rewrite (signaturesByPublicKey_cons _ _ _ _ _ Hpk) in Hrun.
  destruct (Boolean (m0 !! pk)) eqn:Hdup; [done|].
  assert (Hfree : m0 !! pk = None).
  { apply eq_None_not_Some. intros Hsome%Boolean_lookup; [congruence|done]. }
  destruct (IH (<[pk:=s]> m0)) as (Hres & Hnd & Hfresh & Hlook);
    [by apply truthy_values_insert|done|].
  cbn [omap list_omap]. rewrite Hpk. split_and!.
  - constructor; [by rewrite Hpk|done].
  - constructor; [|done]. intros Hin. specialize (Hfresh pk Hin).
    by rewrite lookup_insert_eq in Hfresh.
  - intros k [->|Hin]%elem_of_cons; [done|].
    specialize (Hfresh k Hin). rewrite lookup_insert in Hfresh. by case_decide.
  - intros k s'. rewrite Hlook, lookup_insert, elem_of_cons. case_decide as Hk.
    + subst k. split.
      * intros [[= ->]|[Hin Hk']]; [by right; split; [left|]|by right; split; [right|]].
      * intros [?|[[->|Hin] Hk']]; [congruence|by left|by right].
    + split.
      * intros [?|[Hin Hk']]; [by left|by right; split; [right|]].
      * intros [?|[[->|Hin] Hk']]; [by left|congruence|by right].
Qed.

(** Candidates that resolve to distinct keys, none of them taken, make
    the loop succeed. *)
Lemma signaturesByPublicKey_accepts i cands m0 :
  Forall (λ s, is_Some (key_of i s)) cands →
  NoDup (omap (key_of i) cands) →
  (∀ k, k ∈ omap (key_of i) cands → m0 !! k = None) →
  ∃ m, by_public_key i cands m0 = Ok m.
Proof.
  intros Hres. revert m0.
  induction Hres as [|s rest [pk Hpk] Hrest IH]; intros m0 Hnd Hfresh; [by eexists|].
  cbn [omap list_omap] in Hnd, Hfresh. rewrite Hpk in Hnd, Hfresh.
  apply NoDup_cons in Hnd as [Hnotin Hnd].
  rewrite (signaturesByPublicKey_cons _ _ _ _ _ Hpk).
  rewrite (Hfresh pk) by left. cbn [Boolean].
  apply IH; [done|]. intros k Hk. rewrite lookup_insert_ne; [|congruence].
  apply Hfresh. by right.
Qed.

(** The filled object does not depend on the order of the candidates. *)
Lemma signaturesByPublicKey_Permutation i cands cands' m :
  cands ≡ₚ cands' → Forall (λ s, s ≠ "") cands →
  by_public_key i cands ∅ = Ok m →
  by_public_key i cands' ∅ = Ok m.
Proof.
  intros Hp Htruthy Hrun.
  destruct (signaturesByPublicKey_Ok i cands ∅ m Htruthy) as (Hres & Hnd & _ & Hlook);
    [by intros ?? ?%lookup_empty_Some|done|].
  destruct (signaturesByPublicKey_accepts i cands' ∅) as [m' Hrun'];
    [by rewrite <- Hp|by rewrite <- Hp|by intros; apply lookup_empty|].
  rewrite Hrun'. f_equal.
  destruct (signaturesByPublicKey_Ok i cands' ∅ m') as (_ & _ & _ & Hlook');
    [by rewrite <- Hp|by intros ?? ?%lookup_empty_Some|done|].
  apply map_eq. intros k. apply option_eq. intros s.
  rewrite Hlook, Hlook'. by setoid_rewrite Hp.
Qed.

(** ** The transaction module: ordering by public key *)

Lemma sortSignatures_cons pk pks (m : gmap string string) :
  sortSignatures (pk :: pks) m
  = match m !! pk with
    | Some s =>
        if truthy s && truthy (signatureNoSighashType s)
        then s :: sortSignatures pks m else sortSignatures pks m
    | None => sortSignatures pks m
    end.
Proof.
  unfold sortSignatures. cbn [fmap list_fmap omap list_omap].
  destruct (m !! pk) as [s|]; [|done]. by destruct (truthy s && _).
Qed.

Lemma sortSignatures_elem_of pks (m : gmap string string) s :
  s ∈ sortSignatures pks m
  ↔ ∃ pk, pk ∈ pks ∧ m !! pk = Some s ∧ s ≠ "" ∧ signatureNoSighashType s ≠ "".
Proof.
  induction pks as [|pk pks IH].
  { split; [by intros ?%elem_of_nil|]. by intros (? & ?%elem_of_nil & _). }
  rewrite sortSignatures_cons.
  assert (Hrest : s ∈ sortSignatures pks m →
    ∃ pk0, pk0 ∈ pk :: pks ∧ m !! pk0 = Some s ∧ s ≠ "" ∧ signatureNoSighashType s ≠ "").
  { intros (pk0 & ? & ?)%IH. exists pk0. split; [by right|done]. }
  destruct (m !! pk) as [s0|] eqn:Hpk.
  - destruct (truthy s0 && truthy (signatureNoSighashType s0)) eqn:Hkeep.
    + apply andb_prop in Hkeep as [H1%truthy_true H2%truthy_true].
      rewrite elem_of_cons. split.
      * intros [->|Hin]; [|by apply Hrest]. exists pk. split; [by left|done].
      * intros (pk0 & [->|Hin]%elem_of_cons & Hm & Hne); [left; congruence|].
        right. apply IH. by exists pk0.
    + split; [done|]. intros (pk0 & [->|Hin]%elem_of_cons & Hm & Hne1 & Hne2).
      * rewrite Hpk in Hm. injection Hm as ->.
        apply truthy_true in Hne1, Hne2. by rewrite Hne1, Hne2 in Hkeep.
      * apply IH. by exists pk0.
  - split; [done|]. intros (pk0 & [->|Hin]%elem_of_cons & Hm & Hne); [congruence|].
    apply IH. by exists pk0.
Qed.

Lemma sortSignatures_sublist pks (m : gmap string string) :
  ∃ ks, Forall2 (λ s k, m !! k = Some s) (sortSignatures pks m) ks
        ∧ ks `sublist_of` pks.
Proof.
  induction pks as [|pk pks (ks & Hks & Hsub)]; [by exists []|].
  rewrite sortSignatures_cons.
  destruct (m !! pk) as [s0|] eqn:Hpk;
    [destruct (truthy s0 && truthy (signatureNoSighashType s0))|].
  - exists (pk :: ks). split; [by constructor|by apply sublist_skip].
  - exists ks. split; [done|by apply sublist_cons].
  - exists ks. split; [done|by apply sublist_cons].
Qed.

Lemma sortSignatures_NoDup pks (m : gmap string string) :
  NoDup pks →
  (∀ k1 k2 s, m !! k1 = Some s → m !! k2 = Some s → k1 = k2) →
  NoDup (sortSignatures pks m).
Proof.
  intros Hnd Hinj. induction Hnd as [|pk pks Hnotin Hnd IH]; [constructor|].
  rewrite sortSignatures_cons.
  destruct (m !! pk) as [s0|] eqn:Hpk; [|done].
  destruct (truthy s0 && truthy (signatureNoSighashType s0)); [|done].
  constructor; [|done].
  intros (pk0 & Hin & Hm & _)%sortSignatures_elem_of.
  by rewrite (Hinj _ _ _ Hpk Hm) in Hnotin.
Qed.

Lemma NoDup_omap_is_Some {A B} (f : A → option B) (l : list A) :
  Forall (λ x, is_Some (f x)) l → NoDup (omap f l) → NoDup l.
Proof.
  induction 1 as [|x l [y Hy] _ IH]; [constructor|].
  cbn [omap list_omap]. rewrite Hy. intros [Hnotin Hnd]%NoDup_cons.
  constructor; [|by apply IH]. intros Hin. apply Hnotin, list_elem_of_omap. by exists x.
Qed.

(** The signatures pushed for an input whose candidates were accepted:
    they follow the order of the public keys of the descriptor; when each
    candidate belongs to a key of the descriptor and keeps something once
    its sighash byte is stripped, they are exactly the candidates. *)
Lemma sortSignatures_spec i cands pks m :
  Forall (λ s, s ≠ "") cands →
  by_public_key i cands ∅ = Ok m →
  key_order i (sortSignatures pks m) pks
  ∧ ((∀ s, s ∈ cands →
        (∃ pk, pk ∈ pks ∧ key_of i s = Some pk) ∧ signatureNoSighashType s ≠ "") →
     (∀ s, s ∈ sortSignatures pks m ↔ s ∈ cands)
     ∧ (NoDup pks → sortSignatures pks m ≡ₚ cands)).
Proof.
  intros Htruthy Hrun.
  destruct (signaturesByPublicKey_Ok i cands ∅ m Htruthy)
    as (Hres & Hnd & _ & Hlook); [by intros ?? ?%lookup_empty_Some|done|].
  assert (Hm : ∀ k s, m !! k = Some s ↔ s ∈ cands ∧ key_of i s = Some k).
  { intros k s. rewrite Hlook, lookup_empty. split; [by intros [?|?]|by right]. }
  split.
  { destruct (sortSignatures_sublist pks m) as (ks & Hks & Hsub).
    exists ks. split; [|done]. eapply Forall2_impl; [done|]. by intros s k [_ ?]%Hm. }
  intros Hvalid.
  assert (Hiff : ∀ s, s ∈ sortSignatures pks m ↔ s ∈ cands).
  { intros s. rewrite sortSignatures_elem_of. split.
    - by intros (pk & _ & [? _]%Hm & _).
    - intros Hin. destruct (Hvalid s Hin) as [(pk & Hpk & Hk) Hstrip].
      exists pk. split_and!; [done|by apply Hm|by eapply Forall_forall in Htruthy|done]. }
  split; [done|]. intros Hpks.
  apply NoDup_Permutation; [|by eapply NoDup_omap_is_Some|done].
  apply sortSignatures_NoDup; [done|].
  intros k1 k2 s [_ Hk1]%Hm [_ Hk2]%Hm. congruence.
Qed.

(** ** The transaction module: one input *)

Lemma Result_bind_Ok {A B} (f : A → Result B) (m : Result A) b :
  m ≫= f = Ok b ↔ ∃ a, m = Ok a ∧ f a = Ok b.
Proof.
  destruct m as [a|msg]; cbn; [|by split; [|intros (? & ? & ?)]].
  split; [by exists a|]. by intros (? & [= <-] & ?).
Qed.

Lemma signInput_Ok rows i input tx tx' :
  sign_input rows i input tx = Ok tx' →
  ∃ m f,
    multisigRequiredSigners (multisig input) ≤ length (collectInputSignatures rows i)
    ∧ by_public_key i (collectInputSignatures rows i) ∅ = Ok m
    ∧ version tx' = version tx ∧ outs tx' = outs tx
    ∧ ins tx' = alter f i (ins tx)
    ∧ (legacy input → ∀ txin,
         script (f txin)
         = multisig_input
             (multisigScriptSig (multisig input)
                (sortSignatures (multisigPublicKeys (multisig input)) m))).
Proof.
  unfold signInput.
  destruct (Nat.ltb_spec (length (collectInputSignatures rows i))
              (multisigRequiredSigners (multisig input))) as [|Hlen]; [done|].
  intros (m & Hm & Hset)%Result_bind_Ok. exists m.
  destruct (decide (multisigAddressType (multisig input) = P2WSH)) as [Hw|Hw];
    [|destruct (decide (multisigAddressType (multisig input) = P2SH_P2WSH)) as [Hs|Hs]];
    injection Hset as <-; cbn [version outs ins setScript setWitness].
  - eexists. split_and!; [done..|reflexivity|]. by intros [? _].
  - rewrite list_alter_alter_eq.
    eexists. split_and!; [done..|reflexivity|]. by intros [_ ?].
  - eexists. split_and!; [done..|reflexivity|]. by intros _ txin.
Qed.

Lemma signInput_accepts rows i input tx :
  accepted rows i input → ∃ tx', sign_input rows i input tx = Ok tx'.
Proof.
  intros (Hlen & Hres & Hnd). unfold signInput.
  destruct (Nat.ltb_spec (length (collectInputSignatures rows i))
              (multisigRequiredSigners (multisig input))) as [|_]; [lia|].
  destruct (signaturesByPublicKey_accepts i
              (collectInputSignatures rows i) ∅ Hres Hnd) as [m ->];
    [by intros; apply lookup_empty|].
  cbn [mbind Result_bind]. repeat case_decide; by eexists.
Qed.

Lemma signInput_accepted rows i input tx tx' :
  sign_input rows i input tx = Ok tx' → accepted rows i input.
Proof.
  intros (m & f & Hlen & Hm & _)%signInput_Ok.
  destruct (signaturesByPublicKey_Ok i _ ∅ m
              (collectInputSignatures_truthy rows i)) as (Hres & Hnd & _);
    [by intros ?? ?%lookup_empty_Some|done|].
  by split_and!.
Qed.

Lemma signInput_Permutation rows rows' i input tx tx' :
  rows ≡ₚ rows' →
  sign_input rows i input tx = Ok tx' → sign_input rows' i input tx = Ok tx'.
Proof.
  intros Hp. pose proof (collectInputSignatures_Permutation rows rows' i Hp) as Hc.
  unfold signInput. rewrite <- (Permutation_length Hc).
  destruct (_ <? _); [done|].
  intros (m & Hm & Hset)%Result_bind_Ok.
  by rewrite (signaturesByPublicKey_Permutation i _ _ m Hc
                (collectInputSignatures_truthy rows i) Hm).
Qed.

Lemma signInput_Err rows i input tx tx2 e :
  sign_input rows i input tx = Err e → sign_input rows i input tx2 = Err e.
Proof.
  unfold signInput. destruct (_ <? _); [done|].
  destruct (by_public_key i _ ∅) as [m|msg]; cbn [mbind Result_bind]; [|done].
  by repeat case_decide.
Qed.

(** ** The transaction module: the loop over the inputs *)

Lemma signInputs_Ok rows i0 remaining tx tx' :
  sign_inputs rows i0 remaining tx = Ok tx' →
  length (ins tx') = length (ins tx)
  ∧ (∀ j, j < i0 → ins tx' !! j = ins tx !! j)
  ∧ ∀ k input, remaining !! k = Some input →
      ∃ tx1 tx2, sign_input rows (i0 + k) input tx1 = Ok tx2
                 ∧ length (ins tx1) = length (ins tx)
                 ∧ ins tx' !! (i0 + k) = ins tx2 !! (i0 + k).
Proof.
  revert i0 tx. induction remaining as [|input rest IH]; intros i0 tx Hrun.
  { injection Hrun as ->. split_and!; [done|done|].
    intros k input Hk. by rewrite lookup_nil in Hk. }
  cbn [signInputs] in Hrun.
  apply Result_bind_Ok in Hrun as (t1 & Hone & Hrest).
  destruct (IH _ _ Hrest) as (Hlen & Hbefore & Hat).
  destruct (signInput_Ok _ _ _ _ _ Hone) as (m & f & _ & _ & _ & _ & Hins & _).
  assert (Hlen1 : length (ins t1) = length (ins tx)) by (by rewrite Hins, length_alter).
  split_and!.
  - congruence.
  - intros j Hj. rewrite Hbefore by lia. rewrite Hins. apply list_lookup_alter_ne. lia.
  - intros [|k] input' Hk.
    + injection Hk as <-. exists tx, t1. rewrite Nat.add_0_r. split_and!; [done..|].
      apply Hbefore. lia.
    + destruct (Hat k input' Hk) as (tx1 & tx2 & Hs & Hl & Hi).
      exists tx1, tx2. rewrite <- Nat.add_succ_comm. split_and!; [done|congruence|done].
Qed.

Lemma signInputs_accepts rows i0 remaining tx :
  (∀ k input, remaining !! k = Some input → accepted rows (i0 + k) input) →
  ∃ tx', sign_inputs rows i0 remaining tx = Ok tx'.
Proof.
  revert i0 tx. induction remaining as [|input rest IH]; intros i0 tx Hacc; [by eexists|].
  cbn [signInputs].
  destruct (signInput_accepts rows i0 input tx) as [t1 ->].
  { rewrite <- (Nat.add_0_r i0). by apply Hacc. }
  cbn [mbind Result_bind]. apply IH. intros k input' Hk.
  rewrite Nat.add_succ_comm. by apply Hacc.
Qed.

Lemma signInputs_Permutation rows rows' i0 remaining tx tx' :
  rows ≡ₚ rows' →
  sign_inputs rows i0 remaining tx = Ok tx' → sign_inputs rows' i0 remaining tx = Ok tx'.
Proof.
  intros Hp. revert i0 tx. induction remaining as [|input rest IH]; intros i0 tx; [done|].
  cbn [signInputs]. intros (t1 & Hone & Hrest)%Result_bind_Ok.
  rewrite (signInput_Permutation _ _ _ _ _ _ Hp Hone). cbn [mbind Result_bind]. by apply IH.
Qed.

(** The first input that is refused decides the error. *)
Lemma signInputs_first_error rows i0 before input after tx e :
  (∀ k input', before !! k = Some input' → accepted rows (i0 + k) input') →
  sign_input rows (i0 + length before) input tx = Err e →
  sign_inputs rows i0 (before ++ input :: after) tx = Err e.
Proof.
  revert i0 tx. induction before as [|input0 before IH]; intros i0 tx Hacc Herr.
  { cbn [app length signInputs] in *. rewrite Nat.add_0_r in Herr. by rewrite Herr. }
  cbn [app signInputs].
  destruct (signInput_accepts rows i0 input0 tx) as [t1 ->].
  { rewrite <- (Nat.add_0_r i0). by apply Hacc. }
  cbn [mbind Result_bind]. apply IH.
  - intros k input' Hk. rewrite Nat.add_succ_comm. by apply Hacc.
  - cbn [length] in Herr. rewrite <- Nat.add_succ_comm in Herr. by eapply signInput_Err.
Qed.

(** ** The transaction module: the whole call *)

Lemma checkTransactionSignatures_Ok required k rows :
  checkTransactionSignatures required k rows = Ok ()
  ↔ Forall (λ row, required ≤ length row) rows.
Proof.
  revert k. induction rows as [|row rows IH]; intros k; [done|].
  cbn [checkTransactionSignatures]. rewrite Forall_cons.
  destruct (Nat.ltb_spec (length row) required).
  - split; [done|]. intros [? _]. lia.
  - rewrite IH. split; [by intros ?|by intros [_ ?]].
Qed.

(** When no call of [addInput] throws, the builder has gained the
    outpoints, in order, and nothing else has changed. *)
Lemma addInputs_Ok remaining transactionBuilder tx :
  addInputs network remaining transactionBuilder = Ok tx →
  version tx = version transactionBuilder
  ∧ outs tx = outs transactionBuilder
  ∧ ins tx = ins transactionBuilder
             ++ ((λ input, {| in_txid := txid input; in_index := index input;
                              script := []; witness := [] |}) <$> remaining).
Proof.
  revert transactionBuilder.
  induction remaining as [|input rest IH]; intros transactionBuilder.
  { intros [= <-]. by rewrite app_nil_r. }
  cbn [addInputs].
  destruct (TransactionBuilder_addInput _ _ _ _) as [e|]; [done|].
  intros (Hv & Ho & Hi)%IH. cbn [version ins outs] in *.
  by rewrite Hi, <- app_assoc.
Qed.

Lemma addOutputs_Ok remaining transactionBuilder tx :
  addOutputs network remaining transactionBuilder = Ok tx →
  version tx = version transactionBuilder
  ∧ ins tx = ins transactionBuilder
  ∧ outs tx = outs transactionBuilder
              ++ ((λ output, {| out_address := address output;
                                out_value := amountSats output |}) <$> remaining).
Proof.
  revert transactionBuilder.
  induction remaining as [|output rest IH]; intros transactionBuilder.
  { intros [= <-]. by rewrite app_nil_r. }
  cbn [addOutputs].
  destruct (TransactionBuilder_addOutput _ _ _ _) as [e|]; [done|].
  intros (Hv & Hi & Ho)%IH. cbn [version ins outs] in *.
  by rewrite Ho, <- app_assoc.
Qed.

(** An unsigned transaction that is built has passed both validators,
    and holds the inputs and the outputs as they were supplied. *)
Lemma unsignedMultisigTransaction_Ok tx :
  unsignedMultisigTransaction network inputs outputs = Ok tx →
  validateMultisigInputs inputs = "" ∧ validateOutputs network outputs = ""
  ∧ tx = {| version := 1;
            ins := (λ input, {| in_txid := txid input; in_index := index input;
                                script := []; witness := [] |}) <$> inputs;
            outs := (λ output, {| out_address := address output;
                                  out_value := amountSats output |}) <$> outputs |}.
Proof.
  unfold unsignedMultisigTransaction, truthy.
  destruct (bool_decide_reflect (validateMultisigInputs inputs = "")) as [->|];
    cbn [negb]; [|done].
  destruct (bool_decide_reflect (validateOutputs network outputs = "")) as [->|];
    cbn [negb]; [|done].
  intros (t1 & (Hv1 & Ho1 & Hi1)%addInputs_Ok & Hrest)%Result_bind_Ok.
  apply Result_bind_Ok in Hrest as (t2 & (Hv2 & Hi2 & Ho2)%addOutputs_Ok & Hbuild).
  destruct (TransactionBuilder_buildIncomplete network t2) as [e|]; [done|].
  injection Hbuild as <-. split_and!; [done..|].
  destruct t2 as [v2 i2 o2]. cbn [version ins outs app] in *.
  rewrite Hv1 in Hv2. rewrite Hi1 in Hi2. rewrite Ho1 in Ho2. cbn [app] in Ho2.
  by subst.
Qed.

Lemma signedMultisigTransaction_Ok rows tx :
  signed rows = Ok tx ↔
  well_formed rows
  ∧ ∃ unsignedTransaction,
      unsignedMultisigTransaction network inputs outputs = Ok unsignedTransaction
      ∧ sign_inputs rows 0 inputs unsignedTransaction = Ok tx.
Proof.
  unfold signedMultisigTransaction, well_formed_call.
  rewrite Result_bind_Ok. split.
  - intros (u & Hu & Hrun).
    destruct (bool_decide_reflect (length rows = 0)) as [|Hne]; [done|].
    apply Result_bind_Ok in Hrun as ([] & Hcheck%checkTransactionSignatures_Ok & Hrun).
    split; [|by exists u]. split_and!; [by exists u| |done]. by intros ->.
  - intros ((_ & Hne & Hrows) & u & Hu & Hrun). exists u. split; [done|].
    rewrite bool_decide_eq_false_2 by (by destruct rows).
    apply Result_bind_Ok. exists (). by rewrite checkTransactionSignatures_Ok.
Qed.

Lemma signedMultisigTransaction_well_formed rows :
  well_formed rows →
  ∃ unsignedTransaction,
    length (ins unsignedTransaction) = length inputs
    ∧ signed rows
      = sign_inputs rows 0 inputs unsignedTransaction.
Proof.
  intros ([u Hu] & Hne & Hrows). exists u. split.
  - apply unsignedMultisigTransaction_Ok in Hu as (_ & _ & ->).
    cbn [ins]. by rewrite length_fmap.
  - unfold signedMultisigTransaction. rewrite Hu. cbn [mbind Result_bind].
    rewrite bool_decide_eq_false_2 by (by destruct rows).
    by rewrite (proj2 (checkTransactionSignatures_Ok _ _ _) Hrows).
Qed.

Lemma well_formed_call_Permutation rows rows' :
  rows ≡ₚ rows' → well_formed rows → well_formed rows'.
Proof.
  intros Hp (Hu & Hne & Hrows). split_and!; [done| |by rewrite <- Hp].
  intros ->. by apply Permutation_nil_r in Hp.
Qed.

(** Claim C1. When the call is well formed (the unsigned transaction is
    built, there is a row of signatures and no row is shorter than the
    list of inputs) and every input is given valid, distinct signatures
    in sufficient number, the call returns a transaction; on each legacy input the scriptSig is the one built from
    the signatures in the order of the public keys of the descriptor,
    whatever the order of the signer rows; and permuting the rows gives
    the same transaction. *)
Theorem signedMultisigTransaction_key_order (rows : list (list (option string))) :
  well_formed_call network inputs outputs rows →
  (∀ i input, inputs !! i = Some input → input_accepted network inputs outputs rows i input) →
  ∃ tx,
    signedMultisigTransaction network inputs outputs rows = Ok tx
    ∧ (∀ i input, inputs !! i = Some input → legacy input →
         ∃ txin sorted,
           ins tx !! i = Some txin
           ∧ script txin = multisig_input (multisigScriptSig (multisig input) sorted)
           ∧ in_key_order network inputs outputs i sorted
               (multisigPublicKeys (multisig input))
           ∧ (valid_signatures network inputs outputs rows i input →
              (∀ s, s ∈ sorted ↔ s ∈ collectInputSignatures rows i)
              ∧ (NoDup (multisigPublicKeys (multisig input)) →
                 sorted ≡ₚ collectInputSignatures rows i)))
    ∧ (∀ rows', rows' ≡ₚ rows →
         signedMultisigTransaction network inputs outputs rows' = Ok tx).
Proof.
  intros Hwf Hacc.
  destruct (signedMultisigTransaction_well_formed rows Hwf)
    as (u & Hu & Hcall).
  destruct (signInputs_accepts rows 0 inputs u) as [tx Hrun];
    [done|].
  exists tx. rewrite Hcall. split_and!; [done| |].
  - intros i input Hi Hlegacy.
    destruct (signInputs_Ok rows 0 inputs u tx Hrun)
      as (_ & _ & Hat).
    destruct (Hat i input Hi) as (tx1 & tx2 & Hone & Hlen & Hlook).
    cbn [Nat.add] in *.
    destruct (signInput_Ok _ _ _ _ _ Hone)
      as (m & f & _ & Hm & _ & _ & Hins & Hscript).
    assert (Hin : i < length (ins tx1)).
    { rewrite Hlen, Hu. by eapply lookup_lt_Some. }
    apply lookup_lt_is_Some in Hin as [txin1 Htxin1].
    exists (f txin1), (sortSignatures (multisigPublicKeys (multisig input)) m).
    split_and!.
    + by rewrite Hlook, Hins, list_lookup_alter_eq, Htxin1.
    + by apply Hscript.
    + by eapply sortSignatures_spec; [apply collectInputSignatures_truthy|].
    + by eapply sortSignatures_spec; [apply collectInputSignatures_truthy|].
  - intros rows' Hp. symmetry in Hp.
    destruct (signedMultisigTransaction_well_formed rows'
                (well_formed_call_Permutation _ _ Hp Hwf)) as (u' & _ & Hcall').
    apply signedMultisigTransaction_Ok. split; [by eapply well_formed_call_Permutation|].
    assert (Hcall0 : signed rows = Ok tx) by (by rewrite Hcall).
    apply signedMultisigTransaction_Ok in Hcall0 as (_ & u0 & Hu0 & Hrun0).
    exists u0. split; [done|]. by eapply signInputs_Permutation.
Qed.

Lemma signedMultisigTransaction_accepted rows tx i input :
  signed rows = Ok tx →
  inputs !! i = Some input → accepted rows i input.
Proof.
  intros (_ & u & _ & Hrun)%signedMultisigTransaction_Ok Hi.
  destruct (signInputs_Ok rows 0 inputs u tx Hrun) as (_ & _ & Hat).
  destruct (Hat i input Hi) as (tx1 & tx2 & Hone & _). by eapply signInput_accepted.
Qed.

Lemma Result_cases {A} (r : Result A) : (∃ a, r = Ok a) ∨ (∃ msg, r = Err msg).
Proof. destruct r; eauto. Qed.

(** The error of the first refused input is the error of the call. *)
Lemma signedMultisigTransaction_first_error rows i input e :
  well_formed rows →
  inputs !! i = Some input →
  (∀ j input', j < i → inputs !! j = Some input' → accepted rows j input') →
  (∀ tx, sign_input rows i input tx = Err e) →
  signed rows = Err e.
Proof.
  intros Hwf Hi Hbefore Herr.
  destruct (signedMultisigTransaction_well_formed rows Hwf)
    as (u & _ & ->).
  assert (Hlen : length (take i inputs) = i).
  { rewrite length_take. apply lookup_lt_Some in Hi. lia. }
  pose proof (signInputs_first_error rows 0 (take i inputs)
                input (drop (S i) inputs) u e) as Hfirst.
  rewrite (take_drop_middle inputs i input Hi), Hlen in Hfirst. apply Hfirst.
  - intros k input' [Hk Hlt]%lookup_take_Some. by apply Hbefore.
  - apply Herr.
Qed.

(** Claim C8, amended. An input with fewer candidates than its descriptor
    requires makes the call fail; when the call is well formed (the
    unsigned transaction is built, there is a row of signatures and no
    row is shorter than the list of inputs) and every earlier input is
    accepted, the error names that input, the required count and the
    received count. *)
Theorem insufficient_signatures (rows : list (list (option string))) (i : nat)
  (input : MultisigTransactionInput) :
  inputs !! i = Some input →
  length (collectInputSignatures rows i) < multisigRequiredSigners (multisig input) →
  (∃ msg, signedMultisigTransaction network inputs outputs rows = Err msg)
  ∧ (well_formed_call network inputs outputs rows →
     (∀ j input', j < i → inputs !! j = Some input' →
        input_accepted network inputs outputs rows j input') →
     signedMultisigTransaction network inputs outputs rows
     = Err ("Insufficient signatures for input  " +:+ pretty (i + 1)
            +:+ ": require " +:+ pretty (multisigRequiredSigners (multisig input))
            +:+ ",  received " +:+ pretty (length (collectInputSignatures rows i))
            +:+ ".")).
Proof.
  intros Hi Hfew. split.
  - destruct (Result_cases (signed rows)) as [[tx Hok]|]; [|done].
    destruct (signedMultisigTransaction_accepted rows tx i input Hok Hi) as [Hlen _]. lia.
  - intros Hwf Hbefore. eapply signedMultisigTransaction_first_error; [done..|].
    intros tx. unfold signInput.
    by destruct (Nat.ltb_spec (length (collectInputSignatures rows i))
                   (multisigRequiredSigners (multisig input))); [|lia].
Qed.

Lemma signaturesByPublicKey_app i l1 l2 m0 :
  by_public_key i (l1 ++ l2) m0
  = by_public_key i l1 m0 ≫= by_public_key i l2.
Proof.
  revert m0. induction l1 as [|s l1 IH]; intros m0; [done|].
  cbn [app signaturesByPublicKey].
  destruct (validateMultisigSignature network inputs outputs i s) as [e|[pk|]]; [done| |done].
  destruct (truthy pk); [|done]. destruct (Boolean (m0 !! pk)); [done|]. apply IH.
Qed.

Lemma omap_lookup_NoDup {A B} (f : A → option B) (l : list A) a b x y k :
  NoDup (omap f l) → l !! a = Some x → l !! b = Some y → a < b →
  f x = Some k → f y = Some k → False.
Proof.
  intros Hnd Ha Hb Hlt Hx Hy.
  rewrite <- (take_drop_middle l b y Hb) in Hnd.
  rewrite omap_app in Hnd. cbn [omap list_omap] in Hnd. rewrite Hy in Hnd.
  apply NoDup_app in Hnd as (_ & Hdisj & _).
  apply (Hdisj k); [|by left].
  apply list_elem_of_omap. exists x. split; [|done].
  apply list_elem_of_lookup. exists a. by apply lookup_take_Some.
Qed.

(** Claim C9, amended. Two candidates of an input that resolve to the same
    public key make the call fail; when the call is well formed (the
    unsigned transaction is built, there is a row of signatures and no
    row is shorter than the list of inputs), every earlier input is
    accepted, the input has enough candidates and the
    candidates before the second of the two resolve to distinct keys, the
    error is the duplicate-signature error that names the input and that
    second signature. *)
Theorem duplicate_signature (rows : list (list (option string))) (i : nat)
  (input : MultisigTransactionInput) (a b : nat) (s1 s2 pk : string) :
  inputs !! i = Some input →
  collectInputSignatures rows i !! a = Some s1 →
  collectInputSignatures rows i !! b = Some s2 →
  a < b →
  resolved_key network inputs outputs i s1 = Some pk →
  resolved_key network inputs outputs i s2 = Some pk →
  (∃ msg, signedMultisigTransaction network inputs outputs rows = Err msg)
  ∧ (well_formed_call network inputs outputs rows →
     (∀ j input', j < i → inputs !! j = Some input' →
        input_accepted network inputs outputs rows j input') →
     multisigRequiredSigners (multisig input) ≤ length (collectInputSignatures rows i) →
     Forall (λ s, is_Some (resolved_key network inputs outputs i s))
       (take b (collectInputSignatures rows i)) →
     NoDup (omap (resolved_key network inputs outputs i)
              (take b (collectInputSignatures rows i))) →
     signedMultisigTransaction network inputs outputs rows
     = Err ("Duplicate signature for input " +:+ pretty (i + 1) +:+ ": " +:+ s2)).
Proof.
  intros Hi Ha Hb Hlt Hk1 Hk2. split.
  - destruct (Result_cases (signed rows)) as [[tx Hok]|]; [|done].
    destruct (signedMultisigTransaction_accepted rows tx i input Hok Hi) as (_ & _ & Hnd).
    destruct (omap_lookup_NoDup _ _ _ _ _ _ _ Hnd Ha Hb Hlt Hk1 Hk2).
  - intros Hwf Hbefore Hlen Hres Hnd.
    eapply signedMultisigTransaction_first_error; [done..|].
    intros tx. unfold signInput.
    destruct (Nat.ltb_spec (length (collectInputSignatures rows i))
                (multisigRequiredSigners (multisig input))) as [|_]; [lia|].
    pose proof (collectInputSignatures_truthy rows i) as Htruthy.
    rewrite <- (take_drop_middle _ b s2 Hb), signaturesByPublicKey_app.
    rewrite <- (take_drop_middle _ b s2 Hb) in Htruthy.
    apply Forall_app in Htruthy as [Htake _].
    destruct (signaturesByPublicKey_accepts i _ ∅ Hres Hnd)
      as [m Hm]; [by intros; apply lookup_empty|].
    rewrite Hm. cbn [mbind Result_bind].
    destruct (signaturesByPublicKey_Ok i _ ∅ m Htake)
      as (_ & _ & _ & Hlook); [by intros ?? ?%lookup_empty_Some|done|].
    assert (Hs1 : m !! pk = Some s1).
    { apply Hlook. right. split; [|done].
      apply list_elem_of_lookup. exists a. by apply lookup_take_Some. }
    rewrite (signaturesByPublicKey_cons i s2 _ m pk Hk2), Hs1.
    cbn [Boolean].
    assert (Hs1t : truthy s1 = true).
    { apply truthy_true. eapply Forall_forall in Htake; [done|].
      apply list_elem_of_lookup. exists a. by apply lookup_take_Some. }
    by rewrite Hs1t.
Qed.

End transactions_properties.

(** Claim C8, as stated, fails when an earlier input is refused first:
    here the first input has a candidate that resolves to no key, and
    the error names that input and not the second one, which is the one
    short of signatures. *)
Lemma insufficient_signatures_counterexample :
  ¬ (∀ (C : Collaborators) network inputs outputs rows i input,
       inputs !! i = Some input →
       length (collectInputSignatures rows i) < multisigRequiredSigners (multisig input) →
       signedMultisigTransaction network inputs outputs rows
       = Err ("Insufficient signatures for input  " +:+ pretty (i + 1)
              +:+ ": require " +:+ pretty (multisigRequiredSigners (multisig input))
              +:+ ",  received " +:+ pretty (length (collectInputSignatures rows i))
              +:+ ".")).
Proof.
  intros Hclaim.
  specialize (Hclaim example_collaborators TESTNET [example_input 0; example_input 1]
                example_outputs [[Some "zz"; Some "02aa:2"]; [Some "02bb:1"; None]]
                1 (example_input 1) eq_refl).
  vm_compute in Hclaim. specialize (Hclaim ltac:(lia)). discriminate Hclaim.
Qed.

(** Claim C9, as stated, fails when another failure comes first: here
    the first candidate of the input resolves to no key. *)
Lemma duplicate_signature_counterexample :
  ¬ (∀ (C : Collaborators) network inputs outputs rows i input a b s1 s2 pk,
       inputs !! i = Some input →
       collectInputSignatures rows i !! a = Some s1 →
       collectInputSignatures rows i !! b = Some s2 →
       a < b →
       resolved_key network inputs outputs i s1 = Some pk →
       resolved_key network inputs outputs i s2 = Some pk →
       ∃ s, signedMultisigTransaction network inputs outputs rows
            = Err ("Duplicate signature for input " +:+ pretty (i + 1) +:+ ": " +:+ s)).
Proof.
  intros Hclaim.
  destruct (Hclaim example_collaborators TESTNET [example_input 0] example_outputs
              [[Some "zz"]; [Some "02aa:1"]; [Some "02aa:2"]] 0 (example_input 0)
              1 2 "02aa:1" "02aa:2" "02aa" eq_refl eq_refl eq_refl ltac:(lia)
              eq_refl eq_refl) as [s Hs].
  vm_compute in Hs. discriminate Hs.
Qed.

(** ** Examples on the example collaborators *)

Lemma example_accepted (rows : list (list (option string))) (i : nat) :
  bool_decide
    (@input_accepted example_collaborators TESTNET [example_input 0; example_input 1]
       example_outputs rows i (example_input i)) →
  @input_accepted example_collaborators TESTNET [example_input 0; example_input 1]
    example_outputs rows i (example_input i).
Proof. apply bool_decide_unpack. Qed.

Lemma signedMultisigTransaction_key_order_witness :
  let rows := [[Some "03cc:1"; Some "02aa:2"]; [Some "02aa:1"; Some "03cc:2"]] in
  ∃ tx,
    @signedMultisigTransaction example_collaborators TESTNET
      [example_input 0; example_input 1] example_outputs rows = Ok tx
    ∧ (script <$> ins tx)
      = [String.list_byte_of_string "OP_0 02aa:101 03cc:101";
         String.list_byte_of_string "OP_0 02aa:201 03cc:201"]
    ∧ @signedMultisigTransaction example_collaborators TESTNET
        [example_input 0; example_input 1] example_outputs (reverse rows) = Ok tx.
Proof.
  intros rows.
  destruct (@signedMultisigTransaction_key_order example_collaborators TESTNET
              [example_input 0; example_input 1] example_outputs rows)
    as (tx & Hok & _ & Hperm).
  - split_and!; [eexists; reflexivity|discriminate|].
    repeat constructor.
  - intros [|[|i]] input [= <-]; apply example_accepted; vm_compute; exact I.
  - exists tx. split_and!; [done| |apply Hperm, reverse_Permutation].
    vm_compute in Hok. by injection Hok as <-.
Defined.

Lemma insufficient_signatures_witness :
  @signedMultisigTransaction example_collaborators TESTNET
    [example_input 0; example_input 1] example_outputs
    [[Some "02aa:1"; Some "02aa:2"]; [Some "03cc:1"; None]]
  = Err "Insufficient signatures for input  2: require 2,  received 1.".
Proof.
  etrans.
  - apply (proj2 (@insufficient_signatures example_collaborators TESTNET
                    [example_input 0; example_input 1] example_outputs
                    [[Some "02aa:1"; Some "02aa:2"]; [Some "03cc:1"; None]]
                    1 (example_input 1) eq_refl ltac:(vm_compute; lia))).
    + split_and!; [eexists; reflexivity|discriminate|]. repeat constructor.
    + intros [|j] input' Hj; [intros [= <-]|lia].
      apply example_accepted. vm_compute. exact I.
  - vm_compute. reflexivity.
Defined.

Lemma duplicate_signature_witness :
  @signedMultisigTransaction example_collaborators TESTNET [example_input 0]
    example_outputs [[Some "02aa:1"]; [Some "02bb:1"]; [Some "02aa:2"]]
  = Err "Duplicate signature for input 1: 02aa:2".
Proof.
  etrans.
  - apply (proj2 (@duplicate_signature example_collaborators TESTNET [example_input 0]
                    example_outputs [[Some "02aa:1"]; [Some "02bb:1"]; [Some "02aa:2"]]
                    0 (example_input 0) 0 2 "02aa:1" "02aa:2" "02aa"
                    eq_refl eq_refl eq_refl ltac:(lia) eq_refl eq_refl)).
    + split_and!; [eexists; reflexivity|discriminate|]. repeat constructor.
    + intros j input' Hj. lia.
    + vm_compute. lia.
    + apply (bool_decide_unpack _). vm_compute. exact I.
    + apply (bool_decide_unpack _). vm_compute. exact I.
  - vm_compute. reflexivity.
Defined.

(** ** The transaction module: what signing leaves alone, and the
    unlocking data by address type *)

Section transactions_coverage.
Context `{Collaborators}.
Variables (network : Network) (inputs : list MultisigTransactionInput)
  (outputs : list TransactionOutput).

(** The outpoint of a transaction input. *)
Local Abbreviation outpoint := (λ txin : TransactionIn, (in_txid txin, in_index txin)).

(** What one iteration writes on its input, by address type. *)
Lemma signInput_unlocking rows i input tx tx' :
  signInput network inputs outputs rows i input tx = Ok tx' →
  ∃ m,
    signaturesByPublicKey network inputs outputs i (collectInputSignatures rows i) ∅ = Ok m
    ∧ version tx' = version tx ∧ outs tx' = outs tx
    ∧ ∃ f, ins tx' = alter f i (ins tx)
      ∧ ∀ txin,
          let sorted := sortSignatures (multisigPublicKeys (multisig input)) m in
          outpoint (f txin) = outpoint txin
          ∧ (multisigAddressType (multisig input) = P2WSH →
             script (f txin) = script txin
             ∧ witness (f txin) = multisigWitnessField (multisig input) sorted)
          ∧ (multisigAddressType (multisig input) ≠ P2WSH →
             multisigAddressType (multisig input) = P2SH_P2WSH →
             script (f txin)
             = Hex.byte_of_N
                 (N.of_nat (length (output (multisigRedeemScript (multisig input)))))
               :: output (multisigRedeemScript (multisig input))
             ∧ witness (f txin) = multisigWitnessField (multisig input) sorted)
          ∧ (legacy input →
             script (f txin)
             = multisig_input (multisigScriptSig (multisig input) sorted)
             ∧ witness (f txin) = witness txin).
Proof.
  unfold signInput.
  destruct (Nat.ltb_spec (length (collectInputSignatures rows i))
              (multisigRequiredSigners (multisig input))) as [|Hlen]; [done|].
  intros (m & Hm & Hset)%Result_bind_Ok. exists m.
  destruct (decide (multisigAddressType (multisig input) = P2WSH)) as [Hw|Hw];
    [|destruct (decide (multisigAddressType (multisig input) = P2SH_P2WSH)) as [Hs|Hs]];
    injection Hset as <-; cbn [version outs ins setScript setWitness].
  - split_and!; [done..|]. eexists. split; [reflexivity|].
    intros txin. cbn. split_and!; [done|done|done|]. by intros [? _].
  - rewrite list_alter_alter_eq.
    split_and!; [done..|]. eexists. split; [reflexivity|].
    intros txin. cbn. split_and!; [done|done|done|]. by intros [_ ?].
  - split_and!; [done..|]. eexists. split; [reflexivity|].
    intros txin. cbn. by split_and!.
Qed.

(** The loop keeps the version, the outputs and the outpoints. *)
Lemma signInputs_outpoints rows i0 remaining tx tx' :
  signInputs network inputs outputs rows i0 remaining tx = Ok tx' →
  version tx' = version tx ∧ outs tx' = outs tx
  ∧ outpoint <$> ins tx' = outpoint <$> ins tx.
Proof.
  revert i0 tx. induction remaining as [|input rest IH]; intros i0 tx Hrun.
  { by injection Hrun as ->. }
  cbn [signInputs] in Hrun.
  apply Result_bind_Ok in Hrun as (t1 & Hone & Hrest).
  destruct (IH _ _ Hrest) as (Hv & Ho & Hp).
  destruct (signInput_unlocking _ _ _ _ _ Hone) as (m & _ & Hv1 & Ho1 & f & Hins & Hf).
  split_and!; [by rewrite Hv|by rewrite Ho|].
  rewrite Hp, Hins.
  apply list_eq. intros j. rewrite !list_lookup_fmap.
  destruct (decide (j = i0)) as [->|Hne].
  - rewrite list_lookup_alter_eq.
    destruct (ins tx !! i0) as [txin|]; [|done]. cbn. f_equal. apply (Hf txin).
  - by rewrite list_lookup_alter_ne.
Qed.

(** The iteration of an input starts from the input as the unsigned
    transaction has it, and what it writes is what the call returns. *)
Lemma signInputs_lookup rows i0 remaining tx tx' :
  signInputs network inputs outputs rows i0 remaining tx = Ok tx' →
  ∀ k input, remaining !! k = Some input →
    ∃ tx1 tx2, signInput network inputs outputs rows (i0 + k) input tx1 = Ok tx2
               ∧ ins tx1 !! (i0 + k) = ins tx !! (i0 + k)
               ∧ ins tx' !! (i0 + k) = ins tx2 !! (i0 + k).
Proof.
  revert i0 tx. induction remaining as [|input rest IH]; intros i0 tx Hrun k input' Hk.
  { by rewrite lookup_nil in Hk. }
  cbn [signInputs] in Hrun.
  apply Result_bind_Ok in Hrun as (t1 & Hone & Hrest).
  destruct k as [|k].
  - injection Hk as <-. exists tx, t1. rewrite Nat.add_0_r. split_and!; [done..|].
    destruct (signInputs_Ok _ _ _ _ _ _ _ _ Hrest) as (_ & Hbefore & _).
    apply Hbefore. lia.
  - destruct (IH _ _ Hrest k input' Hk) as (tx1 & tx2 & Hs & Hl & Hi).
    exists tx1, tx2. rewrite <- Nat.add_succ_comm. split_and!; [done| |done].
    rewrite Hl.
    destruct (signInput_Ok _ _ _ _ _ _ _ _ Hone) as (m & f & _ & _ & _ & _ & Hins & _).
    rewrite Hins. apply list_lookup_alter_ne. lia.
Qed.

(** Extra X1. The call returns a transaction exactly when the unsigned
    transaction is built (no validator reports an error and no method of
    the builder throws), there is a row of signatures, no row is shorter
    than the list of inputs, and the candidates of every input are
    accepted: enough of them, each attributed to a public key, no two to
    the same one. *)
Theorem signedMultisigTransaction_succeeds_iff (rows : list (list (option string))) :
  (∃ tx, signedMultisigTransaction network inputs outputs rows = Ok tx)
  ↔ well_formed_call network inputs outputs rows
    ∧ ∀ i input, inputs !! i = Some input →
        input_accepted network inputs outputs rows i input.
Proof.
  split.
  - intros [tx Hok]. split.
    + by apply signedMultisigTransaction_Ok in Hok as [? _].
    + intros i input Hi. by eapply signedMultisigTransaction_accepted.
  - intros [Hwf Hacc].
    destruct (signedMultisigTransaction_well_formed network inputs outputs rows Hwf)
      as (u & _ & ->).
    apply signInputs_accepts. intros k input Hk. by apply Hacc.
Qed.

(** Extra X2. Signing changes nothing but unlocking data: the returned
    transaction has the version (1), the outputs and, input by input, the
    outpoints of the unsigned transaction, which has one input per
    supplied input and one output per supplied output, in order, and no
    unlocking data. *)
Theorem signedMultisigTransaction_skeleton (rows : list (list (option string)))
  (tx : Transaction) :
  signedMultisigTransaction network inputs outputs rows = Ok tx →
  ∃ unsignedTransaction,
    unsignedMultisigTransaction network inputs outputs = Ok unsignedTransaction
    ∧ version tx = 1%Z ∧ version unsignedTransaction = 1%Z
    ∧ outs tx = outs unsignedTransaction
    ∧ outs tx = (λ output, {| out_address := address output;
                              out_value := amountSats output |}) <$> outputs
    ∧ (λ txin, (in_txid txin, in_index txin)) <$> ins tx
      = (λ input, (txid input, index input)) <$> inputs
    ∧ (λ txin, (in_txid txin, in_index txin)) <$> ins unsignedTransaction
      = (λ input, (txid input, index input)) <$> inputs
    ∧ Forall (λ txin, script txin = [] ∧ witness txin = []) (ins unsignedTransaction).
Proof.
  intros (_ & u & Hu & Hrun)%signedMultisigTransaction_Ok. exists u.
  destruct (signInputs_outpoints _ _ _ _ _ Hrun) as (Hv & Ho & Hp).
  pose proof Hu as (_ & _ & ->)%unsignedMultisigTransaction_Ok.
  cbn [version outs ins] in *.
  assert (Hin : (λ txin, (in_txid txin, in_index txin))
                <$> ((λ input, {| in_txid := txid input; in_index := index input;
                                  script := []; witness := [] |}) <$> inputs)
                = (λ input, (txid input, index input)) <$> inputs).
  { rewrite <- list_fmap_compose. by apply list_fmap_ext. }
  split_and!; [done..|congruence|done|].
  apply Forall_fmap, Forall_true. by intros input.
Qed.

(** Extra X3. The unlocking data of each input of the returned
    transaction, by address type. The signatures pushed follow the order
    of the public keys of the descriptor and are the candidates attributed
    to one of those keys that keep something once stripped. On a P2WSH
    input the scriptSig stays empty and the witness is an empty element,
    the signatures with 01 appended and the witness script; on a
    P2SH-P2WSH input the witness is the same and the scriptSig is the
    redeem script behind its length; on any other input the witness stays
    empty and the scriptSig is the one assembled by multisigScriptSig. *)
Theorem signedMultisigTransaction_unlocking (rows : list (list (option string)))
  (tx : Transaction) (i : nat) (input : MultisigTransactionInput) :
  signedMultisigTransaction network inputs outputs rows = Ok tx →
  inputs !! i = Some input →
  ∃ txin sorted,
    ins tx !! i = Some txin
    ∧ in_key_order network inputs outputs i sorted (multisigPublicKeys (multisig input))
    ∧ (∀ s, s ∈ sorted ↔
         s ∈ collectInputSignatures rows i
         ∧ (∃ pk, pk ∈ multisigPublicKeys (multisig input)
                  ∧ resolved_key network inputs outputs i s = Some pk)
         ∧ signatureNoSighashType s ≠ "")
    ∧ (multisigAddressType (multisig input) = P2WSH →
       script txin = []
       ∧ witness txin
         = [] :: ((λ s, Hex.from_hex (signatureNoSighashType s +:+ "01")) <$> sorted)
              ++ [Hex.from_hex (scriptToHex (multisigWitnessScript (multisig input)))])
    ∧ (multisigAddressType (multisig input) ≠ P2WSH →
       multisigAddressType (multisig input) = P2SH_P2WSH →
       script txin
       = Hex.byte_of_N (N.of_nat (length (output (multisigRedeemScript (multisig input)))))
         :: output (multisigRedeemScript (multisig input))
       ∧ witness txin
         = [] :: ((λ s, Hex.from_hex (signatureNoSighashType s +:+ "01")) <$> sorted)
              ++ [Hex.from_hex (scriptToHex (multisigWitnessScript (multisig input)))])
    ∧ (legacy input →
       script txin = multisig_input (multisigScriptSig (multisig input) sorted)
       ∧ witness txin = []).
Proof.
  intros (_ & u & Hu & Hrun)%signedMultisigTransaction_Ok Hi.
  destruct (signInputs_lookup _ _ _ _ _ Hrun i input Hi) as (tx1 & tx2 & Hone & H1 & H2).
  cbn [Nat.add] in *.
  destruct (signInput_unlocking _ _ _ _ _ Hone) as (m & Hm & _ & _ & f & Hins & Hf).
  apply unsignedMultisigTransaction_Ok in Hu as (_ & _ & ->). cbn [ins] in H1.
  rewrite list_lookup_fmap, Hi in H1. cbn [fmap option_fmap option_map] in H1.
  rewrite Hins, list_lookup_alter_eq, H1 in H2. cbn [fmap option_fmap option_map] in H2.
  set (txin0 := {| in_txid := txid input; in_index := index input;
                   script := []; witness := [] |}) in *.
  exists (f txin0), (sortSignatures (multisigPublicKeys (multisig input)) m).
  pose proof (collectInputSignatures_truthy rows i) as Htruthy.
  destruct (sortSignatures_spec network inputs outputs i _
              (multisigPublicKeys (multisig input)) m Htruthy Hm) as [Horder _].
  destruct (signaturesByPublicKey_Ok network inputs outputs i _ ∅ m Htruthy)
    as (_ & _ & _ & Hlook); [by intros ?? ?%lookup_empty_Some|done|].
  destruct (Hf txin0) as (_ & Hw & Hs & Hl).
  assert (Hfield : ∀ sorted,
    multisigWitnessField (multisig input) sorted
    = [] :: ((λ s, Hex.from_hex (signatureNoSighashType s +:+ "01")) <$> sorted)
         ++ [Hex.from_hex (scriptToHex (multisigWitnessScript (multisig input)))]).
  { intros sorted. unfold multisigWitnessField.
    cbn [app]. rewrite fmap_cons, fmap_app, <- list_fmap_compose. done. }
  split_and!; [done|done| | | |].
  - intros s. rewrite sortSignatures_elem_of. split.
    + intros (pk & Hpk & Hs1 & _ & Hstrip).
      apply Hlook in Hs1 as [Hs1|[Hin Hkey]]; [by rewrite lookup_empty in Hs1|].
      split_and!; [done|by exists pk|done].
    + intros (Hin & (pk & Hpk & Hkey) & Hstrip). exists pk. split_and!; [done| | |done].
      * apply Hlook. by right.
      * by eapply Forall_forall in Htruthy.
  - intros Ht. destruct (Hw Ht) as [-> ->]. by rewrite Hfield.
  - intros Hn Ht. destruct (Hs Hn Ht) as [-> ->]. by rewrite Hfield.
  - intros Hleg. by destruct (Hl Hleg) as [-> ->].
Qed.

(** ** The transaction module: failures *)

(** The first row that is too short decides the error of the check of
    the rows. *)
Lemma checkTransactionSignatures_first_short required k before row after :
  Forall (λ r, required ≤ length r) before →
  length row < required →
  checkTransactionSignatures required k (before ++ row :: after)
  = Err ("Insufficient input signatures for transaction signature "
         +:+ pretty (k + length before + 1) +:+ ": require "
         +:+ pretty required +:+ ", received " +:+ pretty (length row) +:+ ".").
Proof.
  intros Hbefore Hrow. revert k.
  induction Hbefore as [|r before Hr _ IH]; intros k; cbn [app checkTransactionSignatures].
  - destruct (Nat.ltb_spec (length row) required); [|lia].
    cbn [length]. by rewrite Nat.add_0_r.
  - destruct (Nat.ltb_spec (length r) required); [lia|].
    rewrite IH. cbn [length].
    by replace (k + S (length before) + 1) with (S k + length before + 1) by lia.
Qed.

(** Extra X4. An error of a validator is thrown by both calls, whatever
    the signatures: the error of the input validator when it has one,
    else the error of the output validator; and every error thrown while
    the unsigned transaction is built, by a validator or by the builder,
    is the error of the signing call. *)
Theorem validation_error_reported (rows : list (list (option string))) :
  (validateMultisigInputs inputs ≠ "" →
   unsignedMultisigTransaction network inputs outputs
   = Err (validateMultisigInputs inputs)
   ∧ signedMultisigTransaction network inputs outputs rows
     = Err (validateMultisigInputs inputs))
  ∧ (validateMultisigInputs inputs = "" → validateOutputs network outputs ≠ "" →
     unsignedMultisigTransaction network inputs outputs
     = Err (validateOutputs network outputs)
     ∧ signedMultisigTransaction network inputs outputs rows
       = Err (validateOutputs network outputs))
  ∧ (∀ e, unsignedMultisigTransaction network inputs outputs = Err e →
          signedMultisigTransaction network inputs outputs rows = Err e).
Proof.
  assert (Hthrown : ∀ e, unsignedMultisigTransaction network inputs outputs = Err e →
                         signedMultisigTransaction network inputs outputs rows = Err e).
  { intros e He. unfold signedMultisigTransaction. by rewrite He. }
  split_and!; [| |done].
  - intros Hin.
    assert (He : unsignedMultisigTransaction network inputs outputs
                 = Err (validateMultisigInputs inputs)).
    { unfold unsignedMultisigTransaction, truthy.
      by rewrite (bool_decide_eq_false_2 _ Hin). }
    split; [done|by apply Hthrown].
  - intros Hin Hout.
    assert (He : unsignedMultisigTransaction network inputs outputs
                 = Err (validateOutputs network outputs)).
    { unfold unsignedMultisigTransaction, truthy.
      by rewrite (bool_decide_eq_true_2 _ Hin), (bool_decide_eq_false_2 _ Hout). }
    split; [done|by apply Hthrown].
Qed.

(** Extra X5. When the unsigned transaction is built, a call without any
    row of signatures fails with its own message, and a row with fewer
    entries than there are inputs makes the call fail with a message that
    names the first such row (counted from 1), the number of inputs and
    the number of entries of that row. *)
Theorem short_row_error (unsignedTransaction : Transaction)
  (before after : list (list (option string))) (row : list (option string)) :
  unsignedMultisigTransaction network inputs outputs = Ok unsignedTransaction →
  signedMultisigTransaction network inputs outputs []
  = Err "At least one transaction signature is required."
  ∧ (Forall (λ r, length inputs ≤ length r) before →
     length row < length inputs →
     signedMultisigTransaction network inputs outputs (before ++ row :: after)
     = Err ("Insufficient input signatures for transaction signature "
            +:+ pretty (length before + 1) +:+ ": require "
            +:+ pretty (length inputs) +:+ ", received "
            +:+ pretty (length row) +:+ ".")).
Proof.
  intros Hu. unfold signedMultisigTransaction.
  rewrite Hu. cbn [mbind Result_bind].
  split; [done|]. intros Hbefore Hrow.
  rewrite bool_decide_eq_false_2 by (by destruct before).
  by rewrite (checkTransactionSignatures_first_short _ 0 _ _ _ Hbefore Hrow).
Qed.

(** Extra X6. A candidate that the validator does not attribute to a
    public key (it throws, or returns nothing) makes the call fail; when
    the call is well formed (the unsigned transaction is built, there is
    a row of signatures and no row is shorter than the list of inputs),
    every earlier input is accepted, the input
    has enough candidates and the candidates before that one resolve to
    distinct keys, the error names the input and the signature, followed
    by the exception in brackets when the validator threw. *)
Theorem invalid_signature (rows : list (list (option string))) (i : nat)
  (input : MultisigTransactionInput) (a : nat) (s : string) :
  inputs !! i = Some input →
  collectInputSignatures rows i !! a = Some s →
  resolved_key network inputs outputs i s = None →
  (∃ msg, signedMultisigTransaction network inputs outputs rows = Err msg)
  ∧ (well_formed_call network inputs outputs rows →
     (∀ j input', j < i → inputs !! j = Some input' →
        input_accepted network inputs outputs rows j input') →
     multisigRequiredSigners (multisig input) ≤ length (collectInputSignatures rows i) →
     Forall (λ s, is_Some (resolved_key network inputs outputs i s))
       (take a (collectInputSignatures rows i)) →
     NoDup (omap (resolved_key network inputs outputs i)
              (take a (collectInputSignatures rows i))) →
     signedMultisigTransaction network inputs outputs rows
     = Err match validateMultisigSignature network inputs outputs i s with
           | Threw e =>
               "Invalid signature for input " +:+ pretty (i + 1) +:+ ": " +:+ s
               +:+ " (" +:+ e +:+ ")"
           | Returned _ =>
               "Invalid signature for input " +:+ pretty (i + 1) +:+ ": " +:+ s
           end).
Proof.
  intros Hi Ha Hnone. split.
  - destruct (Result_cases (signedMultisigTransaction network inputs outputs rows))
      as [[tx Hok]|]; [|done].
    destruct (signedMultisigTransaction_accepted _ _ _ rows tx i input Hok Hi)
      as (_ & Hres & _).
    eapply Forall_forall in Hres; [|by eapply list_elem_of_lookup_2].
    rewrite Hnone in Hres. by destruct Hres.
  - intros Hwf Hbefore Hlen Hres Hnd.
    eapply signedMultisigTransaction_first_error; [done..|].
    intros tx. unfold signInput.
    destruct (Nat.ltb_spec (length (collectInputSignatures rows i))
                (multisigRequiredSigners (multisig input))) as [|_]; [lia|].
    rewrite <- (take_drop_middle _ a s Ha), signaturesByPublicKey_app.
    destruct (signaturesByPublicKey_accepts _ _ _ i _ ∅ Hres Hnd)
      as [m Hm]; [by intros; apply lookup_empty|].
    rewrite Hm. cbn [mbind Result_bind signaturesByPublicKey].
    revert Hnone. unfold resolved_key.
    destruct (validateMultisigSignature network inputs outputs i s) as [e|[pk|]].
    + done.
    + by destruct (truthy pk).
    + done.
Qed.

(** ** The transaction module: the entries of a row that are read *)

(** Only the entries of a row that face an input are read, and an empty
    string there counts as no signature. *)
Lemma collectInputSignatures_normalised rows i :
  i < length inputs →
  collectInputSignatures
    ((λ row, (λ entry, if Boolean entry then entry else None)
               <$> take (length inputs) row) <$> rows) i
  = collectInputSignatures rows i.
Proof.
  intros Hi. unfold collectInputSignatures.
  induction rows as [|row rows IH]; [done|].
  cbn [fmap list_fmap omap list_omap]. cbn [fmap list_fmap] in IH. rewrite IH.
  rewrite list_lookup_fmap, lookup_take_lt by done.
  destruct (row !! i) as [[entry|]|]; [|done..].
  cbn [fmap option_fmap option_map mjoin option_join Boolean].
  destruct (truthy entry) eqn:Ht; cbn [Boolean]; by rewrite ?Ht.
Qed.

Lemma checkTransactionSignatures_normalised k rows :
  checkTransactionSignatures (length inputs) k
    ((λ row, (λ entry, if Boolean entry then entry else None)
               <$> take (length inputs) row) <$> rows)
  = checkTransactionSignatures (length inputs) k rows.
Proof.
  revert k. induction rows as [|row rows IH]; intros k; [done|].
  cbn [fmap list_fmap checkTransactionSignatures]. cbn [fmap list_fmap] in IH.
  rewrite IH, length_fmap, length_take.
  destruct (Nat.ltb_spec (length row) (length inputs)) as [Hlt|Hge].
  - rewrite Nat.min_r by lia. by destruct (Nat.ltb_spec (length row) (length inputs)); [|lia].
  - rewrite Nat.min_l by lia. by rewrite Nat.ltb_irrefl.
Qed.

Lemma signInputs_normalised rows i0 remaining tx :
  i0 + length remaining ≤ length inputs →
  signInputs network inputs outputs
    ((λ row, (λ entry, if Boolean entry then entry else None)
               <$> take (length inputs) row) <$> rows) i0 remaining tx
  = signInputs network inputs outputs rows i0 remaining tx.
Proof.
  revert i0 tx. induction remaining as [|input rest IH]; intros i0 tx Hlen; [done|].
  cbn [length] in Hlen. cbn [signInputs]. unfold signInput.
  rewrite collectInputSignatures_normalised by lia.
  destruct (_ <? _); [done|].
  destruct (signaturesByPublicKey _ _ _ _ _ _) as [m|msg]; cbn [mbind Result_bind]; [|done].
  repeat case_decide; cbn [mbind Result_bind]; apply IH; lia.
Qed.

(** Extra X7. The call reads, of each row, only the entries that face an
    input, and takes an empty string there for an absent signature:
    cutting every row to the number of inputs and replacing its falsy
    entries by absent ones changes neither the transaction returned nor
    the error thrown. *)
Theorem signedMultisigTransaction_entries_read (rows : list (list (option string))) :
  signedMultisigTransaction network inputs outputs
    ((λ row, (λ entry, if Boolean entry then entry else None)
               <$> take (length inputs) row) <$> rows)
  = signedMultisigTransaction network inputs outputs rows.
Proof.
  unfold signedMultisigTransaction.
  destruct (unsignedMultisigTransaction network inputs outputs) as [u|msg];
    cbn [mbind Result_bind]; [|done].
  rewrite length_fmap. case_bool_decide; [done|].
  rewrite checkTransactionSignatures_normalised.
  destruct (checkTransactionSignatures _ _ _) as [[]|msg]; cbn [mbind Result_bind]; [|done].
  by apply signInputs_normalised.
Qed.

End transactions_coverage.

(** ** The statements above on the example collaborators *)

Lemma signedMultisigTransaction_skeleton_witness :
  let rows := [[Some "03cc11"; Some "02aa22"]; [Some "02aa11"; Some "03cc22"]] in
  ∃ tx,
    @signedMultisigTransaction example_collaborators TESTNET
      [example_input 4; example_input 7] example_outputs rows = Ok tx
    ∧ version tx = 1%Z
    ∧ outs tx = [ {| out_address := "2N"; out_value := 90000 |} ]
    ∧ (λ txin, (in_txid txin, in_index txin)) <$> ins tx = [("ae", 4); ("ae", 7)].
Proof.
  intros rows.
  destruct (@signedMultisigTransaction example_collaborators TESTNET
              [example_input 4; example_input 7] example_outputs rows)
    as [tx|msg] eqn:Hok; [|by vm_compute in Hok].
  exists tx. split; [done|].
  destruct (@signedMultisigTransaction_skeleton example_collaborators TESTNET
              [example_input 4; example_input 7] example_outputs rows tx Hok)
    as (u & _ & Hv & _ & _ & Ho & Hp & _).
  by split_and!.
Defined.

Lemma signedMultisigTransaction_unlocking_witness :
  let inputs := [example_input_of "P2WSH" 0; example_input_of "P2SH-P2WSH" 1] in
  let rows := [[Some "03cc11"; Some "02aa22"]; [Some "02aa11"; Some "03cc22"]] in
  ∃ tx txin0 txin1,
    @signedMultisigTransaction example_collaborators TESTNET inputs example_outputs rows
    = Ok tx
    ∧ ins tx !! 0 = Some txin0 ∧ ins tx !! 1 = Some txin1
    ∧ script txin0 = []
    ∧ witness txin0 = [[]; [x02; xaa; x11; x01]; [x03; xcc; x11; x01]; [x52; xae]]
    ∧ script txin1 = [x03; x00; x20; x7f]
    ∧ witness txin1 = [[]; [x02; xaa; x22; x01]; [x03; xcc; x22; x01]; [x52; xae]].
Proof.
  intros inputs rows.
  destruct (@signedMultisigTransaction example_collaborators TESTNET inputs
              example_outputs rows) as [tx|msg] eqn:Hok; [|by vm_compute in Hok].
  destruct (@signedMultisigTransaction_unlocking example_collaborators TESTNET inputs
              example_outputs rows tx 0 (example_input_of "P2WSH" 0) Hok eq_refl)
    as (txin0 & sorted0 & H0 & _ & _ & Hw0 & _).
  destruct (@signedMultisigTransaction_unlocking example_collaborators TESTNET inputs
              example_outputs rows tx 1 (example_input_of "P2SH-P2WSH" 1) Hok eq_refl)
    as (txin1 & sorted1 & H1 & _ & _ & _ & Hw1 & _).
  destruct (Hw0 eq_refl) as [Hs0 _].
  destruct (Hw1 ltac:(discriminate) eq_refl) as [Hs1 _].
  exists tx, txin0, txin1. split_and!; [done..| | |].
  - vm_compute in Hok. injection Hok as <-. by injection H0 as <-.
  - by rewrite Hs1.
  - vm_compute in Hok. injection Hok as <-. by injection H1 as <-.
Defined.

Lemma validation_error_reported_witness :
  @signedMultisigTransaction example_collaborators_nonempty TESTNET [] []
    [[Some "02aa11"]]
  = Err "At least one input is required.".
Proof.
  refine (proj2 (proj1 (@validation_error_reported example_collaborators_nonempty
                          TESTNET [] [] [[Some "02aa11"]]) _)).
  discriminate.
Defined.

(** On the example builder, an outpoint supplied twice passes the
    validators and is refused by the builder: its error is the error of
    both calls. *)
Example builder_error_thrown :
  @unsignedMultisigTransaction example_collaborators_nonempty TESTNET
    [example_input 0; example_input 0] example_outputs
  = Err "Duplicate TxOut: ae:0"
  ∧ @signedMultisigTransaction example_collaborators_nonempty TESTNET
      [example_input 0; example_input 0] example_outputs
      [[Some "02aa11"; Some "02aa22"]; [Some "03cc11"; Some "03cc22"]]
    = Err "Duplicate TxOut: ae:0".
Proof. split; vm_compute; reflexivity. Qed.

Lemma short_row_error_witness :
  @signedMultisigTransaction example_collaborators TESTNET
    [example_input 0; example_input 1] example_outputs
    [[Some "02aa11"; Some "02aa22"]; [Some "03cc11"]; []]
  = Err "Insufficient input signatures for transaction signature 2: require 2, received 1.".
Proof.
  etrans.
  - eapply (proj2 (@short_row_error example_collaborators TESTNET
                     [example_input 0; example_input 1] example_outputs _
                     [[Some "02aa11"; Some "02aa22"]] [[]] [Some "03cc11"]
                     eq_refl)).
    + repeat constructor.
    + vm_compute. lia.
  - vm_compute. reflexivity.
Defined.

Lemma invalid_signature_witness :
  @signedMultisigTransaction example_collaborators TESTNET [example_input 0]
    example_outputs [[Some "02aa11"]; [Some "ff00"]]
  = Err "Invalid signature for input 1: ff00 (Error: Expected DER sequence)".
Proof.
  etrans.
  - apply (proj2 (@invalid_signature example_collaborators TESTNET [example_input 0]
                    example_outputs [[Some "02aa11"]; [Some "ff00"]]
                    0 (example_input 0) 1 "ff00" eq_refl eq_refl eq_refl)).
    + split_and!; [eexists; reflexivity|discriminate|]. repeat constructor.
    + intros j input' Hj. lia.
    + vm_compute. lia.
    + apply (bool_decide_unpack _). vm_compute. exact I.
    + apply (bool_decide_unpack _). vm_compute. exact I.
  - vm_compute. reflexivity.
Defined.

(** ** Base58Check: a decoded string is the encoding of its payload *)

Section base58_inverse.
Local Open Scope N_scope.

Lemma to_N_byte_of_N (d : N) : d < 256 → Byte.to_N (Hex.byte_of_N d) = d.
Proof.
  intros Hd. unfold Hex.byte_of_N. rewrite N.mod_small by done.
  destruct (Byte.of_N d) as [b|] eqn:Hb.
  - by apply Byte.to_of_N.
  - apply Byte.of_N_None_iff in Hb. lia.
Qed.

Lemma digit_char_char_digit c d : Base58.char_digit c = Some d → Base58.digit_char d = c.
Proof.
  intros [_ Hd]%char_digit_inv. unfold Base58.digit_char. by rewrite Hd.
Qed.

Lemma mapM_char_digit_inv cs ds :
  mapM Base58.char_digit cs = Some ds →
  Forall (λ d, d < 58) ds ∧ Base58.digit_char <$> ds = cs.
Proof.
  intros HM%mapM_Some.
  induction HM as [|c d cs ds Hd _ [IH1 IH2]]; [done|]. split.
  - constructor; [by apply char_digit_inv in Hd as [? _]|done].
  - cbn [fmap list_fmap]. cbn [fmap list_fmap] in IH2.
    by rewrite IH2, (digit_char_char_digit c d Hd).
Qed.

(** [Base58.encode] undoes [Base58.decodeUnsafe]. *)
Lemma encode_decodeUnsafe (s : string) (buffer : list byte) :
  Base58.decodeUnsafe s = Some buffer → Base58.encode buffer = s.
Proof.
  unfold Base58.decodeUnsafe, Base58.encode.
  destruct (mapM Base58.char_digit (String.list_ascii_of_string s)) as [ds|] eqn:HM;
    [|done].
  cbn [mbind option_bind]. intros [= <-].
  apply mapM_char_digit_inv in HM as [Hb Hcs].
  set (z := Base58.leading_zeros ds).
  set (n := Base58.of_base 58 ds).
  pose proof (to_base_canonical 256 ltac:(lia) n) as [Hb256 Hh256].
  assert (Hbytes : Byte.to_N <$> (replicate z x00 ++ (Hex.byte_of_N <$> Base58.to_base 256 n))
                   = replicate z 0 ++ Base58.to_base 256 n).
  { rewrite fmap_app, fmap_replicate, <- list_fmap_compose. f_equal.
    rewrite <- (list_fmap_id (Base58.to_base 256 n)) at 2.
    apply Forall_fmap_ext_1. eapply Forall_impl; [exact Hb256|].
    intros d Hd. by apply to_N_byte_of_N. }
  rewrite Hbytes, leading_zeros_replicate by done.
  rewrite of_base_replicate_0, of_base_to_base by lia.
  destruct (leading_zeros_split ds) as [Hsplit Hhead]. fold z in Hsplit, Hhead.
  assert (Hn : n = Base58.of_base 58 (drop z ds)).
  { unfold n. rewrite Hsplit at 1. apply of_base_replicate_0. }
  rewrite Hn, to_base_of_base; [|lia|by split; [apply Forall_drop|]].
  replace (replicate z "1"%char) with (Base58.digit_char <$> replicate z 0)
    by (by rewrite fmap_replicate).
  by rewrite <- fmap_app, <- Hsplit, Hcs, String.string_of_list_ascii_of_string.
Qed.

Lemma to_N_inj (x y : byte) : Byte.to_N x = Byte.to_N y → x = y.
Proof.
  intros Hxy. apply (inj Some). by rewrite <- !Byte.of_to_N, Hxy.
Qed.

(** A buffer of at least four bytes that passes the checksum comparison
    is its payload followed by the first four bytes of the checksum of
    the payload. *)
Lemma decodeRaw_inv (buffer payload : list byte) :
  (4 ≤ length buffer)%nat →
  Bs58check.decodeRaw buffer = Some payload →
  buffer = payload ++ take 4 (Bs58check.checksumFn payload).
Proof.
  intros Hlen. unfold Bs58check.decodeRaw.
  set (p := take (length buffer - 4) buffer).
  set (c := drop (length buffer - 4) buffer).
  destruct (forallb _ _) eqn:Hall; [|done]. intros [= <-].
  rewrite <- (take_drop (length buffer - 4) buffer) at 1. fold p c. f_equal.
  assert (Hc : length c = 4%nat) by (unfold c; rewrite length_drop; lia).
  pose proof (checksum_length p) as Hk.
  apply list_eq_same_length with 4%nat; [done..|].
  intros i x y Hi Hx Hy.
  rewrite forallb_forall in Hall.
  assert (Hin : In i [0; 1; 2; 3]%nat).
  { destruct i as [|[|[|[|i]]]]; cbn; [tauto..|lia]. }
  specialize (Hall i Hin). apply N.eqb_eq, N.lxor_eq in Hall.
  apply lookup_take_Some in Hy as [Hy _].
  unfold Hex.index_int in Hall. rewrite Hx, Hy in Hall. by apply to_N_inj.
Qed.

(** [Bs58check.encode] undoes [Bs58check.decode] when the payload is not
    empty. *)
Lemma bs58check_encode_decode (s : string) (payload : list byte) :
  Bs58check.decode s = inr payload → payload ≠ [] → Bs58check.encode payload = s.
Proof.
  unfold Bs58check.decode, Bs58check.encode. intros Hdec Hne.
  destruct (Base58.decodeUnsafe s) as [buffer|] eqn:Hunsafe; [|done].
  destruct (Bs58check.decodeRaw buffer) as [payload'|] eqn:Hraw; [|done].
  injection Hdec as ->.
  pose proof (decodeRaw_length _ _ Hraw) as Hp.
  assert (Hlen : (4 ≤ length buffer)%nat).
  { destruct (decide (4 ≤ length buffer)%nat) as [|Hshort]; [done|exfalso].
    apply Hne. rewrite Hp. replace (length buffer - 4)%nat with 0%nat by lia. done. }
  rewrite <- (decodeRaw_inv _ _ Hlen Hraw). by apply encode_decodeUnsafe.
Qed.

(** A string that decodes holds no white space. *)
Lemma trim_decodes (s : string) (payload : list byte) :
  Bs58check.decode s = inr payload → trim s = s.
Proof.
  unfold Bs58check.decode, Base58.decodeUnsafe. intros Hdec.
  destruct (mapM Base58.char_digit (String.list_ascii_of_string s)) as [ds|] eqn:HM;
    [|done].
  apply mapM_char_digit_inv in HM as [_ Hcs].
  apply trim_no_whitespace. rewrite <- Hcs. apply Forall_fmap, Forall_true.
  intros d. apply digit_char_not_whitespace.
Qed.

End base58_inverse.

(** ** keys.js: when a conversion succeeds, and what it returns *)

Section base58_length.
Local Open Scope N_scope.

(** Under version bytes that yield a prefix, the encoding of a 78-byte
    serialization has 111 characters. *)
Lemma encode_version_length (p v : string) (payload : list byte) :
  version_yields_prefix p v = true → length payload = 74%nat →
  String.length (Bs58check.encode (Hex.from_hex v ++ payload)) = 111%nat.
Proof.
  unfold version_yields_prefix.
  set (ver := Byte.to_N <$> Hex.from_hex v).
  set (V := Base58.of_base 256 ver).
  set (D := (V * 256 ^ 78) / 58 ^ 107).
  intros Hok Hlen.
  repeat (apply andb_prop in Hok as [Hok ?]).
  repeat match goal with
         | H : bool_decide _ = true |- _ => apply bool_decide_eq_true_1 in H
         | H : negb (bool_decide _) = true |- _ => apply negb_true_iff, bool_decide_eq_false_1 in H
         | H : (_ <=? _) = true |- _ => apply N.leb_le in H
         | H : (_ <? _) = true |- _ => apply N.ltb_lt in H
         end.
  set (tail := payload ++ take 4 (Bs58check.checksumFn (Hex.from_hex v ++ payload))).
  assert (Htail : length tail = 78%nat).
  { unfold tail. rewrite length_app, checksum_length. lia. }
  unfold Bs58check.encode. rewrite <- app_assoc. fold tail.
  unfold Base58.encode. rewrite fmap_app. fold ver.
  assert (Hz : Base58.leading_zeros (ver ++ (Byte.to_N <$> tail)) = 0%nat).
  { destruct ver as [|x ver']; [done|]. cbn [app Base58.leading_zeros].
    destruct (N.eqb_spec x 0) as [->|]; done. }
  rewrite Hz. cbn [replicate app].
  rewrite string_length_list, String.list_ascii_of_string_of_list_ascii, length_fmap.
  set (n := Base58.of_base 256 (ver ++ (Byte.to_N <$> tail))).
  assert (Hn : n = V * 256 ^ 78 + Base58.of_base 256 (Byte.to_N <$> tail)).
  { unfold n. rewrite of_base_app by lia. by rewrite length_fmap, Htail. }
  assert (Hr : Base58.of_base 256 (Byte.to_N <$> tail) < 256 ^ 78).
  { change 78 with (N.of_nat 78). rewrite <- Htail, <- (length_fmap Byte.to_N).
    apply of_base_lt; [lia|]. apply to_N_bytes_bounded. }
  apply to_base_length; [lia|..].
  - change (N.of_nat 110) with (3 + 107). rewrite N.pow_add_r. nia.
  - change (N.of_nat 111) with (4 + 107). rewrite N.pow_add_r. nia.
Qed.

End base58_length.

Lemma version_bytes_length P v :
  Object_get extendedPublicKeyVersions P = Some v → length (Hex.from_hex v) = 4.
Proof.
  unfold extendedPublicKeyVersions. cbn [Object_get].
  repeat case_decide; by intros [= <-].
Qed.

Lemma Object_get_Some_known P v :
  Object_get extendedPublicKeyVersions P = Some v → known_prefix P.
Proof.
  unfold known_prefix, extendedPublicKeyVersions. cbn [Object_get].
  repeat case_decide; [subst; cbn; set_solver..|done].
Qed.

(** The only way to a result without error. *)
Lemma extendedPublicKeyConvert_no_error key targetPrefix :
  error (extendedPublicKeyConvert key targetPrefix) = "" →
  known_prefix targetPrefix ∧ known_prefix (slice_0_4 key)
  ∧ ∃ decoded v,
      Bs58check.decode (trim key) = inr decoded
      ∧ Object_get extendedPublicKeyVersions targetPrefix = Some v
      ∧ extendedPublicKeyConvert key targetPrefix
        = {| extendedPublicKey := Bs58check.encode (Hex.from_hex v ++ drop 4 decoded);
             message := Some ("Your extended public key has been converted from "
                              +:+ slice_0_4 key +:+ " to " +:+ targetPrefix);
             error := "" |}.
Proof.
  unfold extendedPublicKeyConvert.
  destruct (validatePrefix targetPrefix "target") as [e|] eqn:Ht.
  { apply validatePrefix_Some in Ht as ->. done. }
  destruct (validatePrefix (slice_0_4 key) "source") as [e|] eqn:Hs.
  { apply validatePrefix_Some in Hs as ->. done. }
  apply validatePrefix_None in Ht, Hs.
  destruct (Bs58check.decode (trim key)) as [msg|decoded]; [done|].
  destruct (Object_get extendedPublicKeyVersions targetPrefix) as [v|]; [|done].
  intros _. split_and!; [done..|]. by exists decoded, v.
Qed.

(** Extra X8. A conversion returns no error exactly when the target
    prefix and the first four characters of the key are prefixes of the
    version table and the trimmed key passes the Base58Check decoding. *)
Theorem extendedPublicKeyConvert_succeeds_iff (key targetPrefix : string) :
  error (extendedPublicKeyConvert key targetPrefix) = ""
  ↔ known_prefix targetPrefix ∧ known_prefix (slice_0_4 key)
    ∧ ∃ decoded, Bs58check.decode (trim key) = inr decoded.
Proof.
  split.
  - intros (Ht & Hs & decoded & v & Hdec & _)%extendedPublicKeyConvert_no_error.
    split_and!; [done..|]. by exists decoded.
  - intros (Ht & Hs & decoded & Hdec).
    destruct (Object_get_known targetPrefix Ht) as (v & Hv & _).
    by rewrite (extendedPublicKeyConvert_known key targetPrefix v Ht Hs Hv), Hdec.
Qed.

(** Extra X9. A conversion without error returns a key that decodes to
    the four version bytes of the target prefix followed by the bytes the
    original key decodes to after its own first four: only the version
    changes. The message names the two prefixes. *)
Theorem converted_key_decodes (key targetPrefix : string) :
  error (extendedPublicKeyConvert key targetPrefix) = "" →
  ∃ decoded v,
    Bs58check.decode (trim key) = inr decoded
    ∧ Object_get extendedPublicKeyVersions targetPrefix = Some v
    ∧ length (Hex.from_hex v) = 4
    ∧ Bs58check.decode (extendedPublicKey (extendedPublicKeyConvert key targetPrefix))
      = inr (Hex.from_hex v ++ drop 4 decoded)
    ∧ message (extendedPublicKeyConvert key targetPrefix)
      = Some ("Your extended public key has been converted from "
              +:+ slice_0_4 key +:+ " to " +:+ targetPrefix).
Proof.
  intros (_ & _ & decoded & v & Hdec & Hv & ->)%extendedPublicKeyConvert_no_error.
  exists decoded, v. cbn [extendedPublicKey message].
  split_and!; [done|done|by eapply version_bytes_length|apply bs58check_decode_encode|done].
Qed.

(** Extra X10. The key returned by the conversion of a key that decodes
    to 78 bytes, to a prefix of the table other than zpub, begins with
    that prefix and has 111 characters. *)
Theorem converted_key_prefix_length (key targetPrefix : string) (decoded : Hex.Buffer) :
  known_prefix (slice_0_4 key) →
  Bs58check.decode (trim key) = inr decoded →
  length decoded = 78 →
  known_prefix targetPrefix → targetPrefix ≠ "zpub" →
  slice_0_4 (extendedPublicKey (extendedPublicKeyConvert key targetPrefix)) = targetPrefix
  ∧ String.length (extendedPublicKey (extendedPublicKeyConvert key targetPrefix)) = 111.
Proof.
  intros Hs Hdec Hlen Ht Hz.
  destruct (version_of_known targetPrefix Ht Hz) as (v & Hv & Hyields).
  rewrite (extendedPublicKeyConvert_known key targetPrefix v Ht Hs Hv), Hdec.
  cbn [extendedPublicKey].
  assert (Hrest : length (drop 4 decoded) = 74) by (rewrite length_drop; lia).
  split; [by apply encode_version_prefix|by eapply encode_version_length].
Qed.

(** Extra X11. Converting a key to a prefix whose version bytes it
    already carries returns the key itself, with the message of a
    conversion and no error. *)
Theorem extendedPublicKeyConvert_same_version (key targetPrefix v : string)
  (decoded : Hex.Buffer) :
  known_prefix (slice_0_4 key) →
  Object_get extendedPublicKeyVersions targetPrefix = Some v →
  Bs58check.decode key = inr decoded →
  take 4 decoded = Hex.from_hex v →
  extendedPublicKeyConvert key targetPrefix
  = {| extendedPublicKey := key;
       message := Some ("Your extended public key has been converted from "
                        +:+ slice_0_4 key +:+ " to " +:+ targetPrefix);
       error := "" |}.
Proof.
  intros Hs Hv Hdec Hver.
  rewrite (extendedPublicKeyConvert_known key targetPrefix v
             (Object_get_Some_known _ _ Hv) Hs Hv).
  rewrite (trim_decodes key decoded Hdec), Hdec, <- Hver, take_drop.
  rewrite (bs58check_encode_decode key decoded Hdec); [done|].
  intros ->. apply version_bytes_length in Hv. by rewrite <- Hver in Hv.
Qed.

(** ** keys.js: white space after the key *)

Lemma trimStart_whitespace ws :
  Forall (λ c, is_whitespace c = true) (String.list_ascii_of_string ws) →
  trimStart ws = "".
Proof.
  induction ws as [|c ws IH]; [done|]. cbn [String.list_ascii_of_string trimStart].
  intros [Hc Hws]%Forall_cons. rewrite Hc. by apply IH.
Qed.

Lemma trimEnd_whitespace ws :
  Forall (λ c, is_whitespace c = true) (String.list_ascii_of_string ws) →
  trimEnd ws = "".
Proof.
  induction ws as [|c ws IH]; [done|]. cbn [String.list_ascii_of_string trimEnd].
  intros [Hc Hws]%Forall_cons. by rewrite (IH Hws), Hc.
Qed.

Lemma trimEnd_app_whitespace s ws :
  Forall (λ c, is_whitespace c = true) (String.list_ascii_of_string ws) →
  trimEnd (s +:+ ws) = trimEnd s.
Proof.
  intros Hws. induction s as [|c s IH].
  - change ("" +:+ ws) with ws. by rewrite trimEnd_whitespace.
  - change (String c s +:+ ws) with (String c (s +:+ ws)). cbn [trimEnd]. by rewrite IH.
Qed.

Lemma trim_app_whitespace s ws :
  Forall (λ c, is_whitespace c = true) (String.list_ascii_of_string ws) →
  trim (s +:+ ws) = trim s.
Proof.
  intros Hws. unfold trim. induction s as [|c s IH].
  - change ("" +:+ ws) with ws. by rewrite trimStart_whitespace.
  - change (String c s +:+ ws) with (String c (s +:+ ws)). cbn [trimStart].
    destruct (is_whitespace c); [done|].
    by apply (trimEnd_app_whitespace (String c s)).
Qed.

Lemma slice_0_4_app key ws :
  String.length (slice_0_4 key) = 4 → slice_0_4 (key +:+ ws) = slice_0_4 key.
Proof.
  unfold slice_0_4. destruct key as [|a [|b [|c [|d key]]]]; cbn; try done.
  intros _. by destruct key, ws.
Qed.

Lemma known_prefix_length prefix : known_prefix prefix → String.length prefix = 4.
Proof.
  unfold known_prefix, extendedPublicKeyVersions. cbn [Object_keys fmap list_fmap fst].
  rewrite !elem_of_cons, elem_of_nil. intros H; repeat destruct H as [->|H]; done.
Qed.

(** Extra X12. White space after the key does not change a conversion
    that succeeds: the key is trimmed before it is decoded, and its first
    four characters are still its prefix. *)
Theorem convert_trailing_whitespace (key ws targetPrefix : string) :
  Forall (λ c, is_whitespace c = true) (String.list_ascii_of_string ws) →
  error (extendedPublicKeyConvert key targetPrefix) = "" →
  extendedPublicKeyConvert (key +:+ ws) targetPrefix
  = extendedPublicKeyConvert key targetPrefix.
Proof.
  intros Hws (Ht & Hs & decoded & v & Hdec & Hv & ->)%extendedPublicKeyConvert_no_error.
  pose proof (slice_0_4_app key ws (known_prefix_length _ Hs)) as Hslice.
  rewrite (extendedPublicKeyConvert_known (key +:+ ws) targetPrefix v Ht); [|by rewrite Hslice|done].
  by rewrite trim_app_whitespace, Hdec, Hslice.
Qed.

(** ** keys.js: what a result without error says about the key *)

(** Extra X13. A result of convertAndValidateExtendedPublicKey without
    error carries a key that passes validateExtendedPublicKey for the
    network, except when the conversion to the canonical prefix returned
    the input itself: that result is returned as it is, without the
    converted key being validated. *)
Theorem convertAndValidate_no_error `{Bip32} (key : string) (network : Network) :
  let targetPrefix := if decide (network = TESTNET) then "tpub" else "xpub" in
  let result := convertAndValidateExtendedPublicKey key network in
  error result = "" →
  validateExtendedPublicKey (extendedPublicKey result) network = ""
  ∨ (extendedPublicKey result = key
     ∧ validateExtendedPublicKey key network ≠ ""
     ∧ result = extendedPublicKeyConvert key targetPrefix).
Proof.
  intros targetPrefix result. subst result.
  unfold convertAndValidateExtendedPublicKey. fold targetPrefix.
  assert (Hconv :
    let converted := extendedPublicKeyConvert key targetPrefix in
    let result :=
      if negb (bool_decide (extendedPublicKey converted = key)) then
        if bool_decide (validateExtendedPublicKey (extendedPublicKey converted) network = "")
        then converted
        else {| extendedPublicKey := key; message := None;
                error := validateExtendedPublicKey (extendedPublicKey converted) network |}
      else converted in
    validateExtendedPublicKey key network ≠ "" →
    error result = "" →
    validateExtendedPublicKey (extendedPublicKey result) network = ""
    ∨ (extendedPublicKey result = key
       ∧ validateExtendedPublicKey key network ≠ ""
       ∧ result = converted)).
  { intros converted result0 Hinvalid. subst result0.
    destruct (bool_decide_reflect (extendedPublicKey converted = key)) as [Hsame|Hdiff];
      cbn [negb]; [by right|].
    case_bool_decide as Hvalid; [by left|done]. }
  assert (Hpre : preExtendedPublicKeyValidation key network = "" →
                 extendedPublicKeyNetworkValidateion key network ≠ "" →
                 validateExtendedPublicKey key network ≠ "").
  { intros Hp Hn. unfold validateExtendedPublicKey.
    rewrite Hp, (bool_decide_eq_true_2 ("" = "")) by done. cbn [negb].
    by rewrite (bool_decide_eq_false_2 _ Hn). }
  destruct (bool_decide_reflect (preExtendedPublicKeyValidation key network = ""))
    as [Hp|Hp]; cbn [negb]; [|done].
  destruct (bool_decide_reflect (extendedPublicKeyNetworkValidateion key network = ""))
    as [Hn|Hn]; [|by apply Hconv, Hpre].
  destruct (bool_decide_reflect (validateExtendedPublicKey key network = ""))
    as [Hv|Hv]; [by left|by apply Hconv].
Qed.

(** Extra X14. A key that begins with the canonical prefix of the
    network, carries its version bytes, has at least 111 characters and
    passes the Base58Check decoding, but that bip32 refuses, is returned
    with the message of a conversion and without error: its conversion
    gives the same string, which is not validated again. *)
Theorem convertAndValidate_invalid_unreported `{Bip32} (key : string)
  (network : Network) (decoded : Hex.Buffer) (e : string) :
  let targetPrefix := if decide (network = TESTNET) then "tpub" else "xpub" in
  111 ≤ String.length key →
  slice_0_4 key = targetPrefix →
  Bs58check.decode key = inr decoded →
  take 4 decoded
  = Hex.from_hex (if decide (network = TESTNET) then "043587cf" else "0488b21e") →
  bip32_fromBase58 key network = Some e →
  validateExtendedPublicKey key network = "Invalid extended public key: " +:+ e
  ∧ convertAndValidateExtendedPublicKey key network
    = {| extendedPublicKey := key;
         message := Some ("Your extended public key has been converted from "
                          +:+ targetPrefix +:+ " to " +:+ targetPrefix);
         error := "" |}.
Proof.
  intros targetPrefix Hlen Hslice Hdec Hver Hbip.
  assert (Hp : preExtendedPublicKeyValidation key network = "").
  { apply preValidation_empty. split; [|done]. intros ->. cbn in Hlen. lia. }
  assert (Hn : extendedPublicKeyNetworkValidateion key network = "").
  { apply networkValidation_empty. rewrite Hslice. unfold targetPrefix, canonical_prefix.
    case_decide; [by right|by left]. }
  assert (Hv : validateExtendedPublicKey key network
               = "Invalid extended public key: " +:+ e).
  { unfold validateExtendedPublicKey. by rewrite Hp, Hn, Hbip. }
  split; [done|].
  assert (Hconv : extendedPublicKeyConvert key targetPrefix
                  = {| extendedPublicKey := key;
                       message := Some ("Your extended public key has been converted from "
                                        +:+ targetPrefix +:+ " to " +:+ targetPrefix);
                       error := "" |}).
  { assert (Hknown : known_prefix targetPrefix).
    { unfold targetPrefix, known_prefix. case_decide; cbn; set_solver. }
    assert (Hget : Object_get extendedPublicKeyVersions targetPrefix
                   = Some (if decide (network = TESTNET) then "043587cf" else "0488b21e")).
    { unfold targetPrefix. by case_decide. }
    rewrite (extendedPublicKeyConvert_known key targetPrefix _ Hknown
               ltac:(by rewrite Hslice) Hget).
    rewrite (trim_decodes key decoded Hdec), Hdec, <- Hver, take_drop, Hslice.
    rewrite (bs58check_encode_decode key decoded Hdec); [done|].
    intros ->. apply version_bytes_length in Hget. by rewrite <- Hver in Hget. }
  unfold convertAndValidateExtendedPublicKey. fold targetPrefix.
  rewrite Hp, Hn, Hv, Hconv. cbn [extendedPublicKey].
  by rewrite (bool_decide_eq_true_2 (key = key)).
Qed.

(** ** The statements above on the example keys *)

Lemma converted_key_decodes_witness :
  Bs58check.decode (extendedPublicKey (extendedPublicKeyConvert example_xpub "tpub"))
  = inr (Hex.from_hex "043587cf000000000000000000873dff81c02f525623fd1fe5167eac3a55a049de3d314bb42ee227ffed37d5080339a36013301597daef41fbe593a02cc513d0b55527ec2df1050e2e8ff49c85c2").
Proof.
  destruct (converted_key_decodes example_xpub "tpub" ltac:(by vm_compute))
    as (decoded & v & Hdec & Hv & _ & -> & _).
  assert (Hd : Bs58check.decode (trim example_xpub)
               = inr (Hex.from_hex "0488b21e000000000000000000873dff81c02f525623fd1fe5167eac3a55a049de3d314bb42ee227ffed37d5080339a36013301597daef41fbe593a02cc513d0b55527ec2df1050e2e8ff49c85c2"))
    by (vm_compute; reflexivity).
  rewrite Hd in Hdec. injection Hdec as <-.
  injection Hv as <-.
  vm_compute. reflexivity.
Defined.

Lemma converted_key_prefix_length_witness :
  slice_0_4 (extendedPublicKey (extendedPublicKeyConvert example_xpub "Vpub")) = "Vpub"
  ∧ String.length (extendedPublicKey (extendedPublicKeyConvert example_xpub "Vpub")) = 111.
Proof.
  eapply (converted_key_prefix_length example_xpub "Vpub").
  - vm_compute. set_solver.
  - vm_compute. reflexivity.
  - reflexivity.
  - vm_compute. set_solver.
  - discriminate.
Defined.

Lemma extendedPublicKeyConvert_same_version_witness :
  extendedPublicKeyConvert example_xpub "xpub"
  = {| extendedPublicKey := example_xpub;
       message := Some "Your extended public key has been converted from xpub to xpub";
       error := "" |}.
Proof.
  eapply (extendedPublicKeyConvert_same_version example_xpub "xpub" "0488b21e").
  - vm_compute. set_solver.
  - reflexivity.
  - vm_compute. reflexivity.
  - reflexivity.
Defined.

Lemma convert_trailing_whitespace_witness :
  extendedPublicKeyConvert (example_xpub +:+ " ") "tpub"
  = extendedPublicKeyConvert example_xpub "tpub".
Proof.
  apply (convert_trailing_whitespace example_xpub " " "tpub").
  - repeat constructor.
  - vm_compute. reflexivity.
Defined.

Lemma convertAndValidate_no_error_witness :
  let result :=
    @convertAndValidateExtendedPublicKey bip32_serialization_checks example_xpub TESTNET in
  @validateExtendedPublicKey bip32_serialization_checks (extendedPublicKey result) TESTNET
  = ""
  ∨ (extendedPublicKey result = example_xpub
     ∧ @validateExtendedPublicKey bip32_serialization_checks example_xpub TESTNET ≠ ""
     ∧ result = extendedPublicKeyConvert example_xpub "tpub").
Proof.
  apply (@convertAndValidate_no_error bip32_serialization_checks example_xpub TESTNET).
  vm_compute. reflexivity.
Defined.

Lemma convertAndValidate_invalid_unreported_witness :
  @validateExtendedPublicKey bip32_serialization_checks example_bad_xpub MAINNET
  = "Invalid extended public key: TypeError: Invalid parent fingerprint"
  ∧ @convertAndValidateExtendedPublicKey bip32_serialization_checks example_bad_xpub MAINNET
    = {| extendedPublicKey := example_bad_xpub;
         message := Some "Your extended public key has been converted from xpub to xpub";
         error := "" |}.
Proof.
  eapply (@convertAndValidate_invalid_unreported bip32_serialization_checks
            example_bad_xpub MAINNET).
  - vm_compute. lia.
  - reflexivity.
  - vm_compute. reflexivity.
  - reflexivity.
  - vm_compute. reflexivity.
Defined.

(** ** keys.js: public keys *)

(** Extra X15. validatePublicKey returns the empty string exactly when
    the input is not blank, the hex validator has no error and the point
    decoder accepts the decoded bytes. Otherwise the first failing check
    decides the message: blank, then the error of the hex validator as it
    is, then the exception of the decoder inside its sentence. *)
Theorem validatePublicKey_spec `{PublicKeyChecks} (inputString : string) :
  (validatePublicKey inputString = ""
   ↔ inputString ≠ "" ∧ validateHex inputString = ""
     ∧ ECPair_fromPublicKey (Hex.from_hex inputString) = None)
  ∧ validatePublicKey "" = "Public key cannot be blank."
  ∧ (inputString ≠ "" → validateHex inputString ≠ "" →
     validatePublicKey inputString = validateHex inputString)
  ∧ (inputString ≠ "" → validateHex inputString = "" →
     ∀ e, ECPair_fromPublicKey (Hex.from_hex inputString) = Some e →
     validatePublicKey inputString = "Invalid public key " +:+ e +:+ ".").
Proof.
  unfold validatePublicKey. split_and!.
  - destruct (bool_decide_reflect (inputString = "")) as [->|Hne].
    { split; [done|]. by intros [? _]. }
    destruct (bool_decide_reflect (validateHex inputString = "")) as [Hhex|Hhex]; cbn [negb].
    + destruct (ECPair_fromPublicKey (Hex.from_hex inputString)) as [e|].
      * split; [done|]. by intros (_ & _ & ?).
      * done.
    + split; [done|]. by intros (_ & ? & _).
  - done.
  - intros Hne Hhex. by rewrite (bool_decide_eq_false_2 _ Hne), (bool_decide_eq_false_2 _ Hhex).
  - intros Hne Hhex e He.
    by rewrite (bool_decide_eq_false_2 _ Hne), (bool_decide_eq_true_2 _ Hhex), He.
Qed.

(** What [compressPublicKey] returns, read as bytes. *)
Lemma compressPublicKey_bytes (publicKey : string) :
  compressPublicKey publicKey
  = Hex.to_hex
      ((if negb (N.land (Hex.index_int (Hex.from_hex publicKey) 64) 1 =? 0)%N
        then x03 else x02)
       :: take 32 (drop 1 (Hex.from_hex publicKey))).
Proof.
  unfold compressPublicKey, Hex.slice. cbn [app]. f_equal. f_equal.
  by destruct (negb _).
Qed.

Lemma compressPublicKey_short_bytes (publicKey : string) :
  length (Hex.from_hex publicKey) ≤ 64 →
  compressPublicKey publicKey
  = Hex.to_hex (x02 :: take 32 (drop 1 (Hex.from_hex publicKey))).
Proof.
  intros Hlen. rewrite compressPublicKey_bytes. unfold Hex.index_int.
  by rewrite lookup_ge_None_2 by lia.
Qed.

(** Extra X16. An input that decodes to fewer than 65 bytes, such as a key
    that is compressed already, gets the prefix 02 whatever its own first
    byte: byte 64 is absent and reads as 0. The bytes 1 to 32 that exist
    follow the prefix. *)
Theorem compressPublicKey_short (publicKey : string) :
  length (Hex.from_hex publicKey) ≤ 64 →
  compressPublicKey publicKey
  = "02" +:+ Hex.to_hex (take 32 (drop 1 (Hex.from_hex publicKey))).
Proof.
  intros Hlen. rewrite compressPublicKey_bytes.
  assert (Habsent : Hex.from_hex publicKey !! 64 = None)
    by (apply lookup_ge_None_2; lia).
  unfold Hex.index_int. by rewrite Habsent.
Qed.

(** Extra X17. The result of compressPublicKey decodes to one prefix
    byte, 02 or 03, followed by at most 32 bytes; compressing it again
    keeps those bytes and sets the prefix to 02, so that a result with
    prefix 03 is not a fixed point. *)
Theorem compressPublicKey_twice (publicKey : string) :
  ∃ prefix X,
    Hex.from_hex (compressPublicKey publicKey) = prefix :: X
    ∧ (prefix = x02 ∨ prefix = x03)
    ∧ X = take 32 (drop 1 (Hex.from_hex publicKey))
    ∧ length X ≤ 32
    ∧ compressPublicKey (compressPublicKey publicKey) = Hex.to_hex (x02 :: X).
Proof.
  eexists _, _. rewrite (compressPublicKey_bytes publicKey), from_hex_to_hex.
  assert (Hlen : length (take 32 (drop 1 (Hex.from_hex publicKey))) ≤ 32).
  { rewrite length_take. lia. }
  split_and!; [reflexivity| |reflexivity|done|].
  - destruct (negb _); [by right|by left].
  - rewrite compressPublicKey_short_bytes; rewrite from_hex_to_hex.
    + cbn [drop]. by rewrite take_ge by done.
    + cbn [length]. lia.
Qed.

Lemma compressPublicKey_short_witness :
  compressPublicKey "03b32dc780fba98db25b4b72cf2b69da228f5e10ca6aa8f46eabe7f9fe22c994ee"
  = "02b32dc780fba98db25b4b72cf2b69da228f5e10ca6aa8f46eabe7f9fe22c994ee".
Proof.
  etrans.
  - apply compressPublicKey_short. vm_compute. lia.
  - vm_compute. reflexivity.
Defined.

Lemma validatePublicKey_spec_witness :
  @validatePublicKey example_public_key_checks
    "03b32dc780fba98db25b4b72cf2b69da228f5e10ca6aa8f46eabe7f9fe22c994ee"
  = "".
Proof.
  apply (proj2 (proj1 (@validatePublicKey_spec example_public_key_checks _))).
  split_and!; [discriminate|vm_compute; reflexivity|vm_compute; reflexivity].
Defined.
